(** * Organoid tracker and plotter: shallow embedding and verified properties

    The development follows the two scripts of the repository:
    - [OrganoidTracker.py]: per-frame shape extraction and the frame loop;
    - [OrganoidPlotter.py]: per-metric cleaning (centroid pre-filter, z-score
      rejection, gap filling, Savitzky-Golay and rolling-mean smoothing).

    Number model.  Python [int] is [Z].  Python and NumPy [float] (binary64)
    are idealised as real numbers: arithmetic is exact, and the special values
    [inf], [-inf] and [nan] of NumPy are kept where the code can produce them
    (NumPy division by zero, missing values of pandas).  Overflow and
    underflow of binary64 are outside the model: the measurements of a
    contour that reaches [min_area] are far from both.  Where the rounding
    of binary64 decides what the code does, on the z-score of equal samples,
    the arithmetic is a parameter ([Rounded]).  Date-times and time deltas
    are integers counting microseconds, the resolution of Python's
    [datetime].

    Libraries.  The pandas and NumPy operations the plotter calls are
    defined below with the defaults the script uses.  The OpenCV calls of
    the tracker and SciPy's [savgol_filter] are parameters; what is assumed
    of them is written as hypotheses of the theorems that need it. *)

From Stdlib Require Import Reals Lra Lia ZArith List Bool Sorted.
Import ListNotations.

(** ** Python exceptions *)

Module Py.

Inductive exn : Type :=
| ZeroDivisionError
| ValueError.

Inductive result (A : Type) : Type :=
| Ok (a : A)
| Raise (e : exn).

Arguments Ok {A} a.
Arguments Raise {A} e.

Definition bind {A B : Type} (r : result A) (k : A -> result B) : result B :=
  match r with
  | Ok a => k a
  | Raise e => Raise e
  end.

End Py.

Import Py.

Notation "x <- c ;; k" := (bind c (fun x => k))
  (at level 61, c at next level, right associativity).

(** ** NumPy floats, idealised

    A [float] is a real number or one of the three special values.  The
    operations follow IEEE 754 on the special values and are exact on the
    reals; the sign of zero is not kept, so a non-zero number divided by zero
    takes the sign of the dividend. *)

Module NP.

Open Scope R_scope.

Inductive float : Type :=
| Fin (r : R)
| PInf
| NInf
| NaN.

Definition Rltb (x y : R) : bool := if Rlt_dec x y then true else false.
Definition Reqb (x y : R) : bool := if Req_dec_T x y then true else false.

Definition isnan (x : float) : bool :=
  match x with NaN => true | _ => false end.

Definition isfinite (x : float) : bool :=
  match x with Fin _ => true | _ => false end.

Definition of_Z (z : Z) : float := Fin (IZR z).
Definition of_nat (n : nat) : float := Fin (INR n).

Definition neg (x : float) : float :=
  match x with
  | Fin r => Fin (- r)
  | PInf => NInf
  | NInf => PInf
  | NaN => NaN
  end.

Definition add (x y : float) : float :=
  match x, y with
  | NaN, _ | _, NaN => NaN
  | Fin a, Fin b => Fin (a + b)
  | PInf, NInf | NInf, PInf => NaN
  | PInf, _ | _, PInf => PInf
  | NInf, _ | _, NInf => NInf
  end.

Definition sub (x y : float) : float := add x (neg y).

(** The infinity with the sign of [a], or [nan] for [a = 0]. *)
Definition signed_inf (a : R) : float :=
  if Reqb a 0 then NaN else if Rltb 0 a then PInf else NInf.

Definition mul (x y : float) : float :=
  match x, y with
  | NaN, _ | _, NaN => NaN
  | Fin a, Fin b => Fin (a * b)
  | Fin a, PInf | PInf, Fin a => signed_inf a
  | Fin a, NInf | NInf, Fin a => signed_inf (- a)
  | PInf, PInf | NInf, NInf => PInf
  | PInf, NInf | NInf, PInf => NInf
  end.

Definition div (x y : float) : float :=
  match x, y with
  | NaN, _ | _, NaN => NaN
  | Fin a, Fin b => if Reqb b 0 then signed_inf a else Fin (a / b)
  | Fin _, PInf | Fin _, NInf => Fin 0
  | PInf, Fin b => if Rltb b 0 then NInf else PInf
  | NInf, Fin b => if Rltb b 0 then PInf else NInf
  | _, _ => NaN
  end.

Definition abs (x : float) : float :=
  match x with
  | Fin r => Fin (Rabs r)
  | PInf | NInf => PInf
  | NaN => NaN
  end.

(** [np.sqrt]: [nan] below zero. *)
Definition sqrt (x : float) : float :=
  match x with
  | Fin r => if Rltb r 0 then NaN else Fin (R_sqrt.sqrt r)
  | PInf => PInf
  | NInf | NaN => NaN
  end.

(** Comparisons are false as soon as one side is [nan]. *)
Definition ltb (x y : float) : bool :=
  match x, y with
  | NaN, _ | _, NaN => false
  | Fin a, Fin b => Rltb a b
  | Fin _, PInf => true
  | Fin _, NInf => false
  | PInf, _ => false
  | NInf, NInf => false
  | NInf, _ => true
  end.

Definition gtb (x y : float) : bool := ltb y x.

End NP.

(** ** pandas series

    A series is a list of labelled values; the label is the time stamp of
    the row.  Missing values are [nan].  The functions below are the pandas
    and NumPy operations that [OrganoidPlotter.py] calls, with the default
    arguments the script leaves in place. *)

Module Pandas.

Import NP.

Definition Series : Type := list (Z * float).

Definition index (s : Series) : list Z := map fst s.
Definition values (s : Series) : list float := map snd s.

(** A present value ([notna]). *)
Definition valid (x : float) : Prop := isnan x = false.

(** [pd.Series(values, index=index)]: the lengths must agree. *)
Definition make_series (vals : list float) (idx : list Z) : result Series :=
  if Nat.eqb (length vals) (length idx)
  then Ok (combine idx vals)
  else Raise ValueError.

(** Element-wise operation on the values, labels kept. *)
Definition map_values (f : float -> float) (s : Series) : Series :=
  map (fun p => (fst p, f (snd p))) s.

(** Whole-column operation on the values, labels kept. *)
Definition with_values (f : list float -> list float) (s : Series) : Series :=
  combine (index s) (f (values s)).

(** Boolean indexing [series[mask]]: the rows whose mask entry is true. *)
Fixpoint select {A : Type} (l : list A) (mask : list bool) : list A :=
  match l, mask with
  | x :: l', b :: mask' => if b then x :: select l' mask' else select l' mask'
  | _, _ => []
  end.

(** Sum and count that skip missing values ([skipna=True]). *)
Fixpoint nansum (xs : list float) : float :=
  match xs with
  | [] => Fin 0
  | x :: xs' => if isnan x then nansum xs' else add x (nansum xs')
  end.

Fixpoint count (xs : list float) : nat :=
  match xs with
  | [] => O
  | x :: xs' => if isnan x then count xs' else S (count xs')
  end.

(** [Series.mean()]: [nan] when no value is present. *)
Definition mean (xs : list float) : float :=
  match count xs with
  | O => NaN
  | S _ => div (nansum xs) (of_nat (count xs))
  end.

(** [Series.std(ddof=0)]: square root of the mean squared deviation of the
    present values. *)
Definition std0 (xs : list float) : float :=
  match count xs with
  | O => NaN
  | S _ =>
      let avg := div (nansum xs) (of_nat (count xs)) in
      let sqr := map (fun x => mul (sub avg x) (sub avg x)) xs in
      sqrt (div (nansum sqr) (of_nat (count xs)))
  end.

(** [Series.mask(cond)]: missing where the condition holds. *)
Fixpoint mask (xs : list float) (cond : list bool) : list float :=
  match xs, cond with
  | x :: xs', c :: cond' => (if c then NaN else x) :: mask xs' cond'
  | _, _ => []
  end.

(** Position (counted from the head) and value of the first present
    value. *)
Fixpoint next_valid (xs : list float) : option (nat * float) :=
  match xs with
  | [] => None
  | x :: xs' =>
      if isnan x
      then match next_valid xs' with
           | Some (k, v) => Some (S k, v)
           | None => None
           end
      else Some (O, x)
  end.

(** [Series.interpolate()] with its defaults: linear in the position, the
    labels ignored, filling forward only.  [interp_after y0 d xs] fills [xs]
    when the last present value [y0] lies [d] positions before the head of
    [xs]; a missing value between two present ones gets
    [slope * (x - xp[j]) + fp[j]] as in [np.interp], and a missing value after
    the last present one gets that last value. *)
Fixpoint interp_after (y0 : float) (d : nat) (xs : list float) : list float :=
  match xs with
  | [] => []
  | x :: xs' =>
      if isnan x
      then (match next_valid xs' with
            | Some (k, y1) =>
                let slope := div (sub y1 y0) (of_nat (d + k + 1)) in
                add (mul slope (of_nat d)) y0
            | None => y0
            end) :: interp_after y0 (S d) xs'
      else x :: interp_after x 1 xs'
  end.

(** Missing values before the first present one are left missing. *)
Fixpoint interpolate (xs : list float) : list float :=
  match xs with
  | [] => []
  | x :: xs' =>
      if isnan x then x :: interpolate xs' else x :: interp_after x 1 xs'
  end.

(** [Series.bfill()]: a missing value takes the next present value. *)
Fixpoint bfill (xs : list float) : list float :=
  match xs with
  | [] => []
  | x :: xs' =>
      let r := bfill xs' in
      (if isnan x then match r with y :: _ => y | [] => x end else x) :: r
  end.

(** [Series.ffill()]: a missing value takes the last present value. *)
Fixpoint ffill_from (last : float) (xs : list float) : list float :=
  match xs with
  | [] => []
  | x :: xs' =>
      if isnan x then last :: ffill_from last xs' else x :: ffill_from x xs'
  end.

Definition ffill (xs : list float) : list float := ffill_from NaN xs.

(** [Series.rolling(window, center=True, min_periods=1).mean()].  The window
    of position [i] is [start, stop) with [stop = i + 1 + (window - 1) // 2]
    and [start = stop - window], both clipped to the series. *)
Definition rolling_mean (window : nat) (xs : list float) : list float :=
  let n := length xs in
  let offset := ((window - 1) / 2)%nat in
  map (fun i =>
         let stop := Nat.min n (i + 1 + offset) in
         let start := Nat.min n (i + 1 + offset - window) in
         mean (firstn (stop - start) (skipn start xs)))
      (seq 0 n).

(** The value stored under a label, missing for a label the series does
    not have. *)
Fixpoint lookup (t : Z) (s : Series) : float :=
  match s with
  | [] => NaN
  | (t', v) :: s' => if Z.eqb t t' then v else lookup t s'
  end.

(** [Index.is_unique]: no label occurs twice. *)
Fixpoint is_unique (labels : list Z) : bool :=
  match labels with
  | [] => true
  | t :: labels' => negb (existsb (Z.eqb t) labels') && is_unique labels'
  end.

(** [Index.identical]: the same labels in the same order. *)
Definition same_labels (l1 l2 : list Z) : bool :=
  if list_eq_dec Z.eq_dec l1 l2 then true else false.

(** The series read at the given labels. *)
Definition relabel (s : Series) (labels : list Z) : Series :=
  map (fun t => (t, lookup t s)) labels.

(** [Series.reindex(labels)].  When the labels asked for are those of the
    series, the series is returned as it is.  Otherwise each label gets the
    value stored under it, missing for a label the series does not have, and
    a series that holds a label twice is refused with [ValueError] ("cannot
    reindex on an axis with duplicate labels"). *)
Definition reindex (s : Series) (labels : list Z) : result Series :=
  if same_labels (index s) labels then Ok s
  else if is_unique (index s) then Ok (relabel s labels)
       else Raise ValueError.

End Pandas.

(** ** OrganoidPlotter.py *)

Module Plotter.

Import NP Pandas.
Open Scope Z_scope.

(** Lines 25-27. *)
Definition APPLY_ROLLING : Z := 1.
Definition ROLLING_WINDOW : Z := 50.

(** Lines 49-51. *)
Definition z_thresh : Z := 3.
Definition window_length : Z := 10.
Definition poly_order : Z := 7.

(** The columns of [white_organoid_metrics.csv]; the time stamp is the
    index (lines 38-39). *)
Inductive column : Type :=
| area
| perimeter
| centroid_x
| centroid_y
| aspect_ratio
| shape_factor
| solidity
| extent
| eccentricity.

Definition Row : Type := column -> float.
Definition DataFrame : Type := list (Z * Row).

Definition df_index (df : DataFrame) : list Z := map fst df.

(** [clean_df[metric]]. *)
Definition getcol (df : DataFrame) (c : column) : Series :=
  map (fun tr => (fst tr, snd tr c)) df.

(** Lines 42-45. *)
Definition metrics : list column := [area; solidity].

(** [metric in ["centroid_x", "centroid_y"]], line 60. *)
Definition is_centroid (metric : column) : bool :=
  match metric with
  | centroid_x | centroid_y => true
  | _ => false
  end.

(** Line 61: [~((clean_df["centroid_x"] < 650) & (clean_df["centroid_y"] < 650))]. *)
Definition centroid_mask (df : DataFrame) : list bool :=
  map (fun tr => negb (ltb (snd tr centroid_x) (of_Z 650)
                       && ltb (snd tr centroid_y) (of_Z 650))) df.

(** Lines 65-66: z-score rejection on the values of a series. *)
Definition z_scores (xs : list float) : list float :=
  let m := mean xs in
  let s := std0 xs in
  map (fun x => div (sub x m) s) xs.

Definition zscore_filter (xs : list float) : list float :=
  mask xs (map (fun z => gtb (abs z) (of_Z z_thresh)) (z_scores xs)).

(** Lines 69-70: [interpolate()], then [bfill().ffill()]. *)
Definition gap_fill (xs : list float) : list float :=
  ffill (bfill (interpolate xs)).

(** Lines 74-76: the window handed to [savgol_filter].
    [n_points % 2] is Python's floor modulus, [n_points | 1] is bitwise or. *)
Definition choose_window (n_points : Z) : Z :=
  let win := Z.min window_length
                   (if n_points mod 2 =? 1 then n_points else n_points - 1) in
  if win <? 5
  then (if 5 <=? n_points then 5 else Z.lor n_points 1)
  else win.

(** Line 78: [polyorder=min(poly_order, win - 1)]. *)
Definition choose_polyorder (win : Z) : Z := Z.min poly_order (win - 1).

Section Cleaner.

(** [scipy.signal.savgol_filter(x, window_length, polyorder)], a library
    function taken as a parameter. *)
Variable savgol_filter : list float -> Z -> Z -> result (list float).

(** Lines 72-86: both smoothing stages on the gap-filled series. *)
Definition smooth (series_filtered : Series) : result Series :=
  let n_points := Z.of_nat (length series_filtered) in
  let win := choose_window n_points in
  sg <- savgol_filter (values series_filtered) win (choose_polyorder win) ;;
  if negb (APPLY_ROLLING =? 0) && (2 <=? ROLLING_WINDOW)
  then sg_series <- make_series sg (index series_filtered) ;;
       let ra_series :=
         with_values (rolling_mean (Z.to_nat ROLLING_WINDOW)) sg_series in
       make_series (values ra_series) (index series_filtered)
  else make_series sg (index series_filtered).

(** Lines 57-90: the body of the cleaning loop for one metric; the result is
    the column stored as [{metric}_smooth]. *)
Definition clean_metric (clean_df : DataFrame) (metric : column)
  : result Series :=
  let series := getcol clean_df metric in
  let series :=
    if is_centroid metric
    then select series (centroid_mask clean_df)
    else series in
  let series_filtered := with_values zscore_filter series in
  let series_filtered := with_values gap_fill series_filtered in
  smoothed_series <- smooth series_filtered ;;
  reindex smoothed_series (df_index clean_df).

(** Line 56: the loop over [metrics + ["centroid_x", "centroid_y"]]; each
    iteration reads original columns only, so the new columns are collected
    side by side. *)
Fixpoint clean_all (clean_df : DataFrame) (ms : list column)
  : result (list (column * Series)) :=
  match ms with
  | [] => Ok []
  | metric :: ms' =>
      col <- clean_metric clean_df metric ;;
      cols <- clean_all clean_df ms' ;;
      Ok ((metric, col) :: cols)
  end.

(** Line 56. *)
Definition cleaning_loop (clean_df : DataFrame)
  : result (list (column * Series)) :=
  clean_all clean_df (metrics ++ [centroid_x; centroid_y]).

End Cleaner.

(** What the script relies on from [savgol_filter] in its default mode
    [interp]: a window longer than the data is refused with [ValueError];
    a window of at least one and at most the data length, with a polynomial
    order below the window length, yields as many values as the input, all
    finite when the input is.  The parity of the window is not part of the
    contract: recent SciPy releases accept an even window. *)
Definition savgol_contract
  (savgol_filter : list float -> Z -> Z -> result (list float)) : Prop :=
  forall (x : list float) (w p : Z),
    (Z.of_nat (length x) < w -> savgol_filter x w p = Raise ValueError) /\
    (1 <= w <= Z.of_nat (length x) -> 0 <= p < w ->
     forallb isfinite x = true ->
     exists y, savgol_filter x w p = Ok y /\
               length y = length x /\ forallb isfinite y = true).

(** An instance of the contract.  For [polyorder = window_length - 1] the
    fitted polynomial passes through every point of the window, so the
    filter gives back its input; the instance does so for every accepted
    window. *)
Definition savgol_interp (x : list float) (w p : Z) : result (list float) :=
  if (1 <=? w) && (w <=? Z.of_nat (length x)) && (0 <=? p) && (p <? w)
  then Ok x
  else Raise ValueError.

(** A value that is a number or missing, but not an infinity. *)
Definition fin_or_nan (x : float) : bool :=
  match x with
  | Fin _ | NaN => true
  | PInf | NInf => false
  end.

(** The numbers present in a list of values, in order. *)
Fixpoint reals (xs : list float) : list R :=
  match xs with
  | [] => []
  | Fin r :: xs' => r :: reals xs'
  | _ :: xs' => reals xs'
  end.

Fixpoint Rsum (l : list R) : R :=
  match l with
  | [] => 0%R
  | r :: l' => (r + Rsum l')%R
  end.

(** Mean and population variance of a list of reals. *)
Definition Rmean (l : list R) : R := (Rsum l / INR (length l))%R.

Definition Rvar (l : list R) : R :=
  (Rsum (map (fun r => (Rmean l - r) * (Rmean l - r)) l) / INR (length l))%R.

(** The z-score test on one value, for mean [m] and variance [v]: a number
    is rejected when its squared deviation exceeds nine times the
    variance. *)
Definition zmask (m v : R) (x : float) : float :=
  match x with
  | Fin r => if Rltb (9 * v) ((r - m) * (r - m)) then NaN else x
  | _ => x
  end.

(** Values placed by linear interpolation in a gap of [k] missing values
    between [a] and [b]. *)
Definition ramp (a b : R) (k : nat) : list float :=
  map (fun j => Fin (a + (b - a) * INR (j + 1) / INR (k + 1))%R) (seq 0 k).

(** A row is dropped by the centroid pre-filter. *)
Definition excluded (metric : column) (r : Row) : bool :=
  is_centroid metric
  && ltb (r centroid_x) (of_Z 650) && ltb (r centroid_y) (of_Z 650).

(** Number of rows the pre-filter keeps for a metric. *)
Definition retained (df : DataFrame) (metric : column) : nat :=
  length (filter (fun tr => negb (excluded metric (snd tr))) df).

(** A constant series of [before + 1 + after] points with one injected
    value. *)
Definition spiked (before after : nat) (base spike : R) : list float :=
  repeat (Fin base) before ++ Fin spike :: repeat (Fin base) after.

(** Rows for the examples: only the centroid columns matter. *)
Definition row_at (cx cy : Z) : Row :=
  fun c => match c with
           | centroid_x => of_Z cx
           | centroid_y => of_Z cy
           | _ => of_Z 0
           end.

Definition df_two_rows : DataFrame :=
  [(0, row_at 100 100); (1, row_at 900 900)].

End Plotter.

(** ** The z-score stage in rounded arithmetic

    Lines 65-66 once more, with the rounding of binary64 as a parameter:
    [rnd] takes the exact result of an operation to the number that is
    stored, and [fsum] is the sum of a list of numbers as NumPy accumulates
    it, whatever the order of its additions.  The special values behave as
    in [NP]; results too large or too small for binary64 are outside the
    model.  With no rounding at all these definitions are those of
    [Pandas] and [Plotter]. *)

Module Rounded.

Import NP Pandas Plotter.
Open Scope R_scope.

Section Arithmetic.

Variable rnd : R -> R.
Variable fsum : list R -> R.

Definition sub (x y : float) : float :=
  match x, y with
  | Fin a, Fin b => Fin (rnd (a - b))
  | _, _ => NP.sub x y
  end.

Definition mul (x y : float) : float :=
  match x, y with
  | Fin a, Fin b => Fin (rnd (a * b))
  | _, _ => NP.mul x y
  end.

Definition div (x y : float) : float :=
  match x, y with
  | Fin a, Fin b => if Reqb b 0 then signed_inf a else Fin (rnd (a / b))
  | _, _ => NP.div x y
  end.

Definition sqrt (x : float) : float :=
  match x with
  | Fin r => if Rltb r 0 then NaN else Fin (rnd (R_sqrt.sqrt r))
  | _ => NP.sqrt x
  end.

(** The sum of the present values; an infinity among them decides the sum
    as in [Pandas.nansum]. *)
Definition nansum (xs : list float) : float :=
  if forallb fin_or_nan xs then Fin (fsum (reals xs)) else Pandas.nansum xs.

(** [Series.mean()]. *)
Definition mean (xs : list float) : float :=
  match count xs with
  | O => NaN
  | S _ => div (nansum xs) (of_nat (count xs))
  end.

(** [Series.std(ddof=0)]. *)
Definition std0 (xs : list float) : float :=
  match count xs with
  | O => NaN
  | S _ =>
      let avg := div (nansum xs) (of_nat (count xs)) in
      let sqr := map (fun x => mul (sub avg x) (sub avg x)) xs in
      sqrt (div (nansum sqr) (of_nat (count xs)))
  end.

(** Lines 65-66. *)
Definition z_scores (xs : list float) : list float :=
  let m := mean xs in
  let s := std0 xs in
  map (fun x => div (sub x m) s) xs.

Definition zscore_filter (xs : list float) : list float :=
  mask xs (map (fun z => gtb (abs z) (of_Z z_thresh)) (z_scores xs)).

End Arithmetic.

(** What is asked of the arithmetic: the result of an operation lies
    within a sixteenth of its exact value, and the sum of non-negative
    numbers within a half of its exact value.  Rounding to nearest in
    binary64 stays within [2 ^ -53] of the exact value, and a sum of [n]
    numbers within [(n - 1) * 2 ^ -53], in any order of the additions. *)
Definition accurate (rnd : R -> R) (fsum : list R -> R) : Prop :=
  (forall x, Rabs (rnd x - x) <= Rabs x / 16) /\
  (forall l, (forall r, In r l -> 0 <= r) ->
             Rabs (fsum l - Rsum l) <= Rsum l / 2).

(** No rounding. *)
Definition exact (x : R) : R := x.

(** A summation that is a quarter too high. *)
Definition sum_high (l : list R) : R := Rsum l * (5 / 4).

End Rounded.

(** ** OrganoidTracker.py *)

Module Tracker.

Open Scope R_scope.

(** Lines 18-22.  [total_duration] and [start_time] in microseconds, the
    latter counted from 1970-01-01 00:00:00. *)
Definition frame_skip : Z := 1.
Definition min_area : R := 2000.
Definition total_duration : Z := 14 * 86400 * 1000000.
Definition start_time : Z := ((20213 * 24 + 16) * 3600) * 1000000.

(** Python's [/] on floats and on ints: true division, [ZeroDivisionError]
    on a zero divisor. *)
Definition py_div (a b : R) : result R :=
  if NP.Reqb b 0 then Raise ZeroDivisionError else Ok (a / b).

Definition py_div_int (a b : Z) : result R :=
  if Z.eqb b 0 then Raise ZeroDivisionError else Ok (IZR a / IZR b).

(** Python's [int()] on a float: truncation towards zero. *)
Definition py_int (r : R) : Z :=
  if Rle_dec 0 r then Int_part r else (- Int_part (- r))%Z.

(** Truth value of a float in a condition: false for zero only. *)
Definition truthy (r : R) : bool := negb (NP.Reqb r 0).

(** The entries of [cv2.moments] that the script reads. *)
Record Moments : Type := { m00 : R; m10 : R; m01 : R }.

(** One row of [contour_data], lines 71-82. *)
Record MetricRecord : Type := {
  timestamp : Z;
  area : R;
  perimeter : R;
  centroid_x : Z;
  centroid_y : Z;
  aspect_ratio : R;
  shape_factor : R;
  solidity : R;
  extent : R;
  eccentricity : NP.float
}.

(** Lines 60-61. *)
Definition centroid (M : Moments) : result (Z * Z) :=
  cx <- (if truthy (m00 M)
         then q <- py_div (m10 M) (m00 M) ;; Ok (py_int q)
         else Ok 0%Z) ;;
  cy <- (if truthy (m00 M)
         then q <- py_div (m01 M) (m00 M) ;; Ok (py_int q)
         else Ok 0%Z) ;;
  Ok (cx, cy).

(** Lines 60-82: the record built from the measurements of the selected
    contour, in the order of the statements. *)
Definition shape_metrics (timestamp : Z) (area perimeter : R) (M : Moments)
    (w h : Z) (hull_area : R) : result MetricRecord :=
  c <- centroid M ;;
  aspect_ratio <- py_div_int w h ;;
  shape_factor <- (if truthy perimeter
                   then py_div (4 * PI * area) (perimeter ^ 2)
                   else Ok 0) ;;
  solidity <- (if truthy hull_area then py_div area hull_area else Ok 0) ;;
  extent <- (if negb (Z.eqb (w * h) 0)
             then py_div area (IZR (w * h))
             else Ok 0) ;;
  eccentricity <- (if negb (Z.eqb (Z.max w h) 0)
                   then q <- py_div_int (Z.min w h) (Z.max w h) ;;
                        Ok (NP.sqrt (NP.Fin (1 - q ^ 2)))
                   else Ok (NP.Fin 0)) ;;
  Ok {| timestamp := timestamp;
        area := area;
        perimeter := perimeter;
        centroid_x := fst c;
        centroid_y := snd c;
        aspect_ratio := aspect_ratio;
        shape_factor := shape_factor;
        solidity := solidity;
        extent := extent;
        eccentricity := eccentricity |}.

(** [max(items, key=key)]: the first item with the largest key. *)
Fixpoint max_by {A : Type} (key : A -> R) (best : A) (items : list A) : A :=
  match items with
  | [] => best
  | c :: items' =>
      max_by key (if NP.Rltb (key best) (key c) then c else best) items'
  end.

(** [datetime._divide_and_round]: the quotient rounded to nearest, ties to
    even; it is how a [timedelta] is divided by an [int]. *)
Definition divide_and_round (a b : Z) : Z :=
  let q := (a / b)%Z in
  let r := (2 * (a mod b))%Z in
  let greater_than_half := if (0 <? b)%Z then (b <? r)%Z else (r <? b)%Z in
  if greater_than_half || ((r =? b)%Z && (q mod 2 =? 1)%Z)
  then (q + 1)%Z
  else q.

(** Lines 99-101.  [frame_count] is [int(cap.get(CAP_PROP_FRAME_COUNT))];
    [fps_period] stands for [timedelta(seconds=1 / fps)]. *)
Definition frame_period (frame_count fps_period : Z) : Z :=
  let total_frames := if Z.eqb frame_count 0 then 1%Z else frame_count in
  if negb (Z.eqb total_duration 0)
  then divide_and_round total_duration total_frames
  else fps_period.

Section Frames.

(** Frames and contours are OpenCV values; the calls of lines 30-47 (grey
    conversion, CLAHE, blur, Otsu threshold, opening and closing,
    [findContours]) are one function from the frame to its external
    contours, and the remaining OpenCV calls are parameters as well. *)
Variables Frame Contour : Type.
Variable find_contours : Frame -> list Contour.
Variable contourArea : Contour -> R.
Variable arcLength : Contour -> R.
Variable moments : Contour -> Moments.
Variable boundingRect : Contour -> Z * Z * Z * Z.
Variable convexHull : Contour -> Contour.
Variable drawContours : Frame -> Contour -> Frame.
Variable circle : Frame -> Z -> Z -> Frame.
Variable putText : Frame -> Z -> R -> Z -> Z -> Frame.

(** The two module-level lists of lines 25-26. *)
Record TrackState : Type := {
  contour_data : list MetricRecord;
  all_contours : list (Contour * Z)
}.

Definition init_state : TrackState :=
  {| contour_data := []; all_contours := [] |}.

(** Lines 29-89.  The state is returned with the overlay frame; an
    uncaught exception ends the run. *)
Definition process_frame (st : TrackState) (frame : Frame) (timestamp : Z)
  : result (TrackState * Frame) :=
  match find_contours frame with
  | [] => Ok (st, frame)
  | c0 :: contours' =>
      let cnt := max_by contourArea c0 contours' in
      if NP.Rltb (contourArea cnt) min_area
      then Ok (st, frame)
      else
        let st1 := {| contour_data := contour_data st;
                      all_contours := all_contours st ++ [(cnt, timestamp)] |} in
        let '(x, y, w, h) := boundingRect cnt in
        rec <- shape_metrics timestamp (contourArea cnt) (arcLength cnt)
                 (moments cnt) w h (contourArea (convexHull cnt)) ;;
        let st2 := {| contour_data := contour_data st1 ++ [rec];
                      all_contours := all_contours st1 |} in
        let frame1 := drawContours frame cnt in
        let frame2 := circle frame1 (centroid_x rec) (centroid_y rec) in
        let frame3 := putText frame2 (py_int (area rec)) (solidity rec)
                              x (y - 100)%Z in
        Ok (st2, frame3)
  end.

(** A frame has a detection: one of its external contours has the largest
    area among them, and that area reaches [min_area]. *)
Definition detected (frame : Frame) : Prop :=
  exists cnt,
    In cnt (find_contours frame) /\
    (forall c, In c (find_contours frame) -> contourArea c <= contourArea cnt) /\
    min_area <= contourArea cnt.

(** Lines 106-123: the frame loop.  [cap] holds the frames still to be
    read; [cap.read()] fails on the empty list and ends the loop, and
    [cap.grab()] drops one frame.  [out] collects what is written to the
    overlay video. *)
Fixpoint main_loop (period : Z) (cap : list Frame) (frame_idx : Z)
    (st : TrackState) (out : list Frame) : result (TrackState * list Frame) :=
  match cap with
  | [] => Ok (st, out)
  | frame :: cap' =>
      if negb (Z.eqb (frame_idx mod frame_skip) 0)
      then main_loop period cap' (frame_idx + 1)%Z st out
      else
        let ts := (start_time + frame_idx * period)%Z in
        r <- process_frame st frame ts ;;
        main_loop period cap' (frame_idx + 1)%Z (fst r) (out ++ [snd r])
  end.

(** Lines 92-126. *)
Definition main (frame_count fps_period : Z) (video : list Frame)
  : result (TrackState * list Frame) :=
  main_loop (frame_period frame_count fps_period) video 0%Z init_state [].

End Frames.

(** A small OpenCV for the examples: a contour is given by its
    measurements, a frame by its contours and the number of drawing calls
    made on it. *)
Record ToyContour : Type := {
  toy_area : R;
  toy_perimeter : R;
  toy_moments : Moments;
  toy_rect : Z * Z * Z * Z;
  toy_hull_area : R
}.

Record ToyFrame : Type := {
  toy_contours : list ToyContour;
  toy_drawn : nat
}.

Definition toy_hull (c : ToyContour) : ToyContour :=
  {| toy_area := toy_hull_area c;
     toy_perimeter := toy_perimeter c;
     toy_moments := toy_moments c;
     toy_rect := toy_rect c;
     toy_hull_area := toy_hull_area c |}.

Definition toy_draw (f : ToyFrame) : ToyFrame :=
  {| toy_contours := toy_contours f; toy_drawn := S (toy_drawn f) |}.

Definition toy_process_frame :=
  process_frame ToyFrame ToyContour toy_contours toy_area toy_perimeter
    toy_moments toy_rect toy_hull
    (fun f _ => toy_draw f) (fun f _ _ => toy_draw f)
    (fun f _ _ _ _ => toy_draw f).

Definition toy_main :=
  main ToyFrame ToyContour toy_contours toy_area toy_perimeter
    toy_moments toy_rect toy_hull
    (fun f _ => toy_draw f) (fun f _ _ => toy_draw f)
    (fun f _ _ _ _ => toy_draw f).

(** A disc-like blob of area 3000 in a 70 x 60 box. *)
Definition blob : ToyContour :=
  {| toy_area := 3000;
     toy_perimeter := 200;
     toy_moments := {| m00 := 3000; m10 := 2700000; m01 := 2850000 |};
     toy_rect := (865, 920, 70, 60)%Z;
     toy_hull_area := 3100 |}.

(** A speck below the area threshold. *)
Definition speck : ToyContour :=
  {| toy_area := 12;
     toy_perimeter := 14;
     toy_moments := {| m00 := 12; m10 := 120; m01 := 120 |};
     toy_rect := (8, 8, 4, 4)%Z;
     toy_hull_area := 12 |}.

(** A contour with a bounding box of height zero. *)
Definition flat : ToyContour :=
  {| toy_area := 3000;
     toy_perimeter := 200;
     toy_moments := {| m00 := 3000; m10 := 2700000; m01 := 2850000 |};
     toy_rect := (865, 920, 70, 0)%Z;
     toy_hull_area := 3100 |}.

Definition frame_of (cs : list ToyContour) : ToyFrame :=
  {| toy_contours := cs; toy_drawn := 0 |}.

Definition video3 : list ToyFrame :=
  [frame_of [speck; blob]; frame_of [speck]; frame_of [blob]].

End Tracker.

(** ** OrganoidTracker.py: which frames give a record *)

Module TrackerRun.

Import Tracker.
Open Scope Z_scope.

Section Frames.

Variables Frame Contour : Type.
Variable find_contours : Frame -> list Contour.
Variable contourArea : Contour -> R.

(** Lines 48-53 as one test: the frame has contours and the selected one
    is not below [min_area]. *)
Definition detectedb (frame : Frame) : bool :=
  match find_contours frame with
  | [] => false
  | c0 :: contours' =>
      negb (NP.Rltb (contourArea (max_by contourArea c0 contours')) min_area)
  end.

(** The time stamps of line 118 for the frames of [cap] that pass the
    test, [frame_idx] being the index of the first frame of [cap]. *)
Fixpoint detection_stamps (period : Z) (cap : list Frame) (frame_idx : Z)
  : list Z :=
  match cap with
  | [] => []
  | frame :: cap' =>
      if detectedb frame
      then (start_time + frame_idx * period)
             :: detection_stamps period cap' (frame_idx + 1)
      else detection_stamps period cap' (frame_idx + 1)
  end.

End Frames.

(** Four frames, three of them with a blob. *)
Definition video4 : list ToyFrame :=
  [frame_of [blob]; frame_of [speck]; frame_of [speck; blob];
   frame_of [blob]].

End TrackerRun.

(** ** From the metrics file to the data frame

    Lines 128-133 of the tracker write one row per record under the keys of
    the record; lines 38-39 of the plotter read the file back and make the
    time stamp the index. *)

Module MetricsFile.

Import NP Plotter.

Definition row_of (rec : Tracker.MetricRecord) : Row :=
  fun c =>
    match c with
    | area => Fin (Tracker.area rec)
    | perimeter => Fin (Tracker.perimeter rec)
    | centroid_x => of_Z (Tracker.centroid_x rec)
    | centroid_y => of_Z (Tracker.centroid_y rec)
    | aspect_ratio => Fin (Tracker.aspect_ratio rec)
    | shape_factor => Fin (Tracker.shape_factor rec)
    | solidity => Fin (Tracker.solidity rec)
    | extent => Fin (Tracker.extent rec)
    | eccentricity => Tracker.eccentricity rec
    end.

Definition to_frame (contour_data : list Tracker.MetricRecord) : DataFrame :=
  map (fun rec => (Tracker.timestamp rec, row_of rec)) contour_data.

End MetricsFile.

(** A frame of five rows, two of them inside the exclusion region. *)
Module PlotterData.

Import Plotter.
Open Scope Z_scope.

(** A row as the tracker writes it for a contour of area 3000 and
    perimeter 200 in a 70 x 60 box, with a hull of area 3100 and the given
    centroid. *)
Definition blob_row (cx cy : Z) : Row :=
  fun c =>
    match c with
    | area => NP.Fin 3000
    | perimeter => NP.Fin 200
    | centroid_x => NP.of_Z cx
    | centroid_y => NP.of_Z cy
    | aspect_ratio => NP.Fin (70 / 60)
    | shape_factor => NP.Fin (4 * PI * 3000 / 200 ^ 2)
    | solidity => NP.Fin (3000 / 3100)
    | extent => NP.Fin (3000 / 4200)
    | eccentricity => NP.Fin (sqrt (1 - (60 / 70) ^ 2))
    end.

(** Five such rows, one second apart from the start time; the first and
    the third have their centroid inside the exclusion region. *)
Definition df_run : DataFrame :=
  [(Tracker.start_time + 0 * 1000000, blob_row 100 100);
   (Tracker.start_time + 1 * 1000000, blob_row 900 930);
   (Tracker.start_time + 2 * 1000000, blob_row 120 90);
   (Tracker.start_time + 3 * 1000000, blob_row 902 931);
   (Tracker.start_time + 4 * 1000000, blob_row 905 933)].

(** Twelve rows, the fewest that give the centroid path a segment. *)
Definition twelve_rows : Pandas.Series :=
  map (fun t => (Z.of_nat t, NP.Fin (INR t))) (seq 0 12).

(** Six such rows: the first inside the exclusion region, the second and
    the third under the same time stamp. *)
Definition df_repeat : DataFrame :=
  [(Tracker.start_time + 0 * 1000000, blob_row 100 100);
   (Tracker.start_time + 1 * 1000000, blob_row 900 930);
   (Tracker.start_time + 1 * 1000000, blob_row 901 930);
   (Tracker.start_time + 2 * 1000000, blob_row 902 931);
   (Tracker.start_time + 3 * 1000000, blob_row 905 933);
   (Tracker.start_time + 4 * 1000000, blob_row 906 934)].

End PlotterData.

(** ** OrganoidPlotter.py: the centroid trace *)

Module Figure.

Import NP Pandas.
Open Scope R_scope.

(** The literal [0.0018] of lines 99-100. *)
Definition PIXEL_TO_MM : R := 18 / 10000.

(** A column times a number. *)
Definition scale (k : R) (s : Series) : Series :=
  map_values (fun x => mul x (Fin k)) s.

(** Lines 99-100. *)
Definition centroid_mm (s : Series) : Series := scale PIXEL_TO_MM s.

(** The slice [l[::step]]: [stride_from step k l] skips [k] items, then
    takes one item in every [step]. *)
Fixpoint stride_from {A : Type} (step k : nat) (l : list A) : list A :=
  match l with
  | [] => []
  | x :: l' =>
      match k with
      | O => x :: stride_from step (step - 1) l'
      | S k' => stride_from step k' l'
      end
  end.

Definition every_nth {A : Type} (step : nat) (l : list A) : list A :=
  stride_from step 0 l.

(** Lines 150-152. *)
Definition centroid_sampled (s : Series) : list float :=
  every_nth 11 (values s).

(** Lines 156-157: the points paired with their successors,
    [points[:-1]] with [points[1:]]. *)
Definition segments {A : Type} (points : list A) : list (A * A) :=
  combine (removelast points) (tl points).

(** Lines 150-157: the sampled centroid columns, in millimetres, as points
    and as the segments of the path drawn through them. *)
Definition centroid_points (cx cy : Series) : list (float * float) :=
  combine (centroid_sampled (centroid_mm cx))
          (centroid_sampled (centroid_mm cy)).

Definition centroid_segments (cx cy : Series)
  : list ((float * float) * (float * float)) :=
  segments (centroid_points cx cy).

End Figure.

(** ** opencv_vimba_1color_capture.py

    The rig is the state the script acts on: its counter [i], the value of
    the DAC that drives the light, the numbers of the images written and
    the seconds spent in [time.sleep]. *)

Module Capture.

Open Scope Z_scope.

(** Lines 13-14. *)
Definition exposure_seconds : Z := 2.
Definition EXPOSURE : Z := exposure_seconds * 1000000.

(** [cam.get_frame(timeout_ms=4000)] returns a frame or raises. *)
Inductive grab : Type :=
| Grabbed
| TimedOut.

Record Rig : Type := {
  i : Z;
  dac_value : Z;
  images : list Z;
  slept : Z
}.

(** Lines 9 and 29. *)
Definition power_on : Rig :=
  {| i := 0; dac_value := 0; images := []; slept := 0 |}.

(** Lines 36-50.  The boolean tells whether the call returned; when
    [get_frame] raises, the statements after it are not run. *)
Definition vimbagrab (rig : Rig) (g : grab) : Rig * bool :=
  let lit := {| i := i rig; dac_value := 65000;
                images := images rig; slept := slept rig |} in
  match g with
  | TimedOut => (lit, false)
  | Grabbed =>
      ({| i := i lit; dac_value := 0;
          images := images lit ++ [i lit]; slept := slept lit |}, true)
  end.

(** Lines 55-69: the loop body, once per outcome of [get_frame]; the loop
    itself never ends, so a run is given by the outcomes it has met so far.
    The boolean tells whether the script is still running. *)
Fixpoint loop (grabs : list grab) (rig : Rig) : Rig * bool :=
  match grabs with
  | [] => (rig, true)
  | g :: grabs' =>
      let (rig1, returned) := vimbagrab rig g in
      if returned
      then
        let i1 := i rig1 + 1 in
        let nap := (if 5 <? i1 then 60 * 60 * 1 else 0) + 5 in
        loop grabs' {| i := i1; dac_value := dac_value rig1;
                       images := images rig1; slept := slept rig1 + nap |}
      else (rig1, false)
  end.

End Capture.

(** * Properties *)

(** ** Real comparisons as booleans *)

Section RealTests.

Open Scope R_scope.

Lemma Rltb_true (x y : R) : NP.Rltb x y = true <-> x < y.
Proof.
  unfold NP.Rltb. destruct (Rlt_dec x y); split; intros; auto; discriminate.
Qed.

Lemma Rltb_false (x y : R) : NP.Rltb x y = false <-> y <= x.
Proof.
  unfold NP.Rltb. destruct (Rlt_dec x y); split; intros H;
    first [reflexivity | discriminate | lra].
Qed.

Lemma Reqb_true (x y : R) : NP.Reqb x y = true <-> x = y.
Proof.
  unfold NP.Reqb. destruct (Req_dec_T x y); split; intros; auto; discriminate.
Qed.

Lemma Reqb_false (x y : R) : NP.Reqb x y = false <-> x <> y.
Proof.
  unfold NP.Reqb. destruct (Req_dec_T x y); split; intros H;
    first [reflexivity | discriminate | contradiction | assumption].
Qed.

Lemma Reqb_refl (x : R) : NP.Reqb x x = true.
Proof. apply Reqb_true. reflexivity. Qed.

End RealTests.

(** Decide a boolean test on concrete reals. *)
Ltac rtest :=
  repeat match goal with
  | |- context [NP.Rltb ?x ?y] =>
      first [ rewrite (proj2 (Rltb_true x y)) by lra
            | rewrite (proj2 (Rltb_false x y)) by lra ]
  | |- context [NP.Reqb ?x ?y] =>
      first [ rewrite (proj2 (Reqb_true x y)) by lra
            | rewrite (proj2 (Reqb_false x y)) by lra ]
  end.

(** ** OrganoidTracker.py: shape metrics *)

Section ShapeMetrics.

Import Tracker.
Open Scope R_scope.

Lemma py_int_spec (r : R) (z : Z) :
  (0 <= r -> IZR z <= r < IZR z + 1) ->
  (r < 0 -> IZR z - 1 < r <= IZR z) ->
  py_int r = z.
Proof.
  intros Hpos Hneg. unfold py_int. destruct (Rle_dec 0 r) as [H|H].
  - symmetry. apply Int_part_spec. specialize (Hpos H). lra.
  - assert (Hr : r < 0) by lra. specialize (Hneg Hr).
    assert (E : (- z)%Z = Int_part (- r)).
    { apply Int_part_spec. rewrite opp_IZR. lra. }
    rewrite <- E. lia.
Qed.

(** Truncation moves the quotient towards zero by less than one. *)
Lemma py_int_bounds (r : R) :
  Rabs (IZR (py_int r) - r) < 1 /\ Rabs (IZR (py_int r)) <= Rabs r.
Proof.
  unfold py_int. destruct (Rle_dec 0 r) as [H|H].
  - destruct (base_Int_part r) as [H1 H2].
    assert (0 <= IZR (Int_part r)).
    { apply IZR_le. apply Z.lt_succ_r. apply lt_IZR.
      rewrite succ_IZR. lra. }
    split; [apply Rabs_def1; lra|].
    rewrite !Rabs_pos_eq; lra.
  - destruct (base_Int_part (- r)) as [H1 H2].
    assert (0 <= IZR (Int_part (- r))).
    { apply IZR_le. apply Z.lt_succ_r. apply lt_IZR.
      rewrite succ_IZR. lra. }
    rewrite opp_IZR.
    split; [apply Rabs_def1; lra|].
    rewrite Rabs_Ropp. rewrite Rabs_pos_eq by lra.
    rewrite Rabs_left by lra. lra.
Qed.

Lemma centroid_eq (M : Moments) :
  centroid M =
  Ok (if NP.Reqb (m00 M) 0
      then (0%Z, 0%Z)
      else (py_int (m10 M / m00 M), py_int (m01 M / m00 M))).
Proof.
  unfold centroid, truthy, py_div.
  destruct (NP.Reqb (m00 M) 0); reflexivity.
Qed.

Lemma pow2_eq_0 (x : R) : x ^ 2 = 0 <-> x = 0.
Proof. split; intros H; [nra | subst; lra]. Qed.

(** With a bounding box of non-zero height every division of lines 60-69
    is defined, and the record holds the guarded quotients. *)
Lemma shape_metrics_ok (ts : Z) (a p : R) (M : Moments) (w h : Z) (hull : R) :
  h <> 0%Z ->
  shape_metrics ts a p M w h hull =
  Ok {| timestamp := ts;
        area := a;
        perimeter := p;
        centroid_x := if NP.Reqb (m00 M) 0 then 0%Z
                      else py_int (m10 M / m00 M);
        centroid_y := if NP.Reqb (m00 M) 0 then 0%Z
                      else py_int (m01 M / m00 M);
        aspect_ratio := IZR w / IZR h;
        shape_factor := if NP.Reqb p 0 then 0 else 4 * PI * a / p ^ 2;
        solidity := if NP.Reqb hull 0 then 0 else a / hull;
        extent := if Z.eqb (w * h) 0 then 0 else a / IZR (w * h);
        eccentricity :=
          if Z.eqb (Z.max w h) 0 then NP.Fin 0
          else NP.sqrt (NP.Fin (1 - (IZR (Z.min w h) / IZR (Z.max w h)) ^ 2))
     |}.
Proof.
  intros Hh. unfold shape_metrics. rewrite centroid_eq. cbn [bind].
  unfold py_div_int at 1. rewrite (proj2 (Z.eqb_neq h 0) Hh). cbn [bind].
  assert (Esf : (if truthy p then py_div (4 * PI * a) (p ^ 2) else Ok 0) =
                Ok (if NP.Reqb p 0 then 0 else 4 * PI * a / p ^ 2)).
  { unfold truthy, py_div. destruct (NP.Reqb p 0) eqn:E; cbn [negb];
      [reflexivity|].
    apply Reqb_false in E.
    rewrite (proj2 (Reqb_false (p ^ 2) 0)); [reflexivity|].
    rewrite pow2_eq_0. exact E. }
  rewrite Esf. cbn [bind].
  assert (Eso : (if truthy hull then py_div a hull else Ok 0) =
                Ok (if NP.Reqb hull 0 then 0 else a / hull)).
  { unfold truthy, py_div. destruct (NP.Reqb hull 0); reflexivity. }
  rewrite Eso. cbn [bind].
  assert (Eex : (if negb (Z.eqb (w * h) 0)
                 then py_div a (IZR (w * h)) else Ok 0) =
                Ok (if Z.eqb (w * h) 0 then 0 else a / IZR (w * h))).
  { unfold py_div. destruct (Z.eqb (w * h) 0) eqn:E; cbn [negb];
      [reflexivity|].
    apply Z.eqb_neq in E.
    rewrite (proj2 (Reqb_false (IZR (w * h)) 0)); [reflexivity|].
    intros H0. apply E. apply eq_IZR. exact H0. }
  rewrite Eex. cbn [bind].
  unfold py_div_int.
  destruct (Z.eqb (Z.max w h) 0) eqn:E; cbn [negb bind fst snd];
    destruct (NP.Reqb (m00 M) 0); reflexivity.
Qed.

(** Line 63 has no guard: a height of zero ends lines 60-82 in
    [ZeroDivisionError]. *)
Lemma shape_metrics_zero_height (ts : Z) (a p : R) (M : Moments) (w : Z)
    (hull : R) :
  shape_metrics ts a p M w 0 hull = Raise ZeroDivisionError.
Proof.
  unfold shape_metrics. rewrite centroid_eq. reflexivity.
Qed.

End ShapeMetrics.

(** ** OrganoidTracker.py: one frame *)

Section ProcessFrame.

Import Tracker.
Open Scope R_scope.

Variables Frame Contour : Type.
Variable find_contours : Frame -> list Contour.
Variable contourArea : Contour -> R.
Variable arcLength : Contour -> R.
Variable moments : Contour -> Moments.
Variable boundingRect : Contour -> Z * Z * Z * Z.
Variable convexHull : Contour -> Contour.
Variable drawContours : Frame -> Contour -> Frame.
Variable circle : Frame -> Z -> Z -> Frame.
Variable putText : Frame -> Z -> R -> Z -> Z -> Frame.

Local Abbreviation process_frame :=
  (process_frame Frame Contour find_contours contourArea arcLength moments
     boundingRect convexHull drawContours circle putText).
Local Abbreviation detected := (detected Frame Contour find_contours contourArea).
Local Abbreviation TrackState := (TrackState Contour).
Local Abbreviation contour_data := (contour_data Contour).

Lemma max_by_spec (A : Type) (key : A -> R) (items : list A) :
  forall best,
    In (max_by key best items) (best :: items) /\
    forall c, In c (best :: items) -> key c <= key (max_by key best items).
Proof.
  induction items as [|c items IH]; intros best; cbn [max_by].
  - split; [left; reflexivity|]. intros c [->|[]]. lra.
  - destruct (NP.Rltb (key best) (key c)) eqn:E.
    + apply Rltb_true in E. destruct (IH c) as [Hin Hmax]. split.
      * right. exact Hin.
      * intros c' [->|Hc'].
        -- specialize (Hmax c (or_introl eq_refl)). lra.
        -- apply Hmax. exact Hc'.
    + apply Rltb_false in E. destruct (IH best) as [Hin Hmax]. split.
      * destruct Hin as [Hin|Hin]; [left; exact Hin | right; right; exact Hin].
      * intros c' [->|[->|Hc']].
        -- apply Hmax. left. reflexivity.
        -- specialize (Hmax best (or_introl eq_refl)). lra.
        -- apply Hmax. right. exact Hc'.
Qed.

(** The selected contour decides [detected]. *)
Lemma detected_max_by (frame : Frame) (c0 : Contour) (rest : list Contour) :
  find_contours frame = c0 :: rest ->
  (detected frame <-> min_area <= contourArea (max_by contourArea c0 rest)).
Proof.
  intros E. destruct (max_by_spec Contour contourArea rest c0) as [Hin Hmax].
  unfold Tracker.detected. rewrite E. split.
  - intros (cnt & Hc & _ & Hmin). specialize (Hmax cnt Hc). lra.
  - intros Hmin. exists (max_by contourArea c0 rest). auto.
Qed.

Lemma not_detected_nil (frame : Frame) :
  find_contours frame = [] -> ~ detected frame.
Proof.
  intros E (cnt & Hc & _). rewrite E in Hc. exact Hc.
Qed.

(** The two outcomes of [process_frame] when the bounding boxes have a
    non-zero height. *)
Lemma process_frame_cases (st : TrackState) (frame : Frame) (ts : Z) :
  (forall c, In c (find_contours frame) -> snd (boundingRect c) <> 0%Z) ->
  (~ detected frame /\ process_frame st frame ts = Ok (st, frame)) \/
  (detected frame /\
   exists cnt rec frame',
     In cnt (find_contours frame) /\
     min_area <= contourArea cnt /\
     shape_metrics ts (contourArea cnt) (arcLength cnt) (moments cnt)
       (snd (fst (boundingRect cnt))) (snd (boundingRect cnt))
       (contourArea (convexHull cnt)) = Ok rec /\
     process_frame st frame ts =
     Ok ({| Tracker.contour_data := contour_data st ++ [rec];
            Tracker.all_contours :=
              all_contours Contour st ++ [(cnt, ts)] |}, frame')).
Proof.
  intros Hh. unfold Tracker.process_frame.
  destruct (find_contours frame) as [|c0 rest] eqn:E.
  - left. split; [apply not_detected_nil; exact E | reflexivity].
  - pose proof (detected_max_by frame c0 rest E) as Hdet.
    destruct (max_by_spec Contour contourArea rest c0) as [Hin Hmax].
    set (cnt := max_by contourArea c0 rest) in *.
    destruct (NP.Rltb (contourArea cnt) min_area) eqn:Hlt.
    + apply Rltb_true in Hlt. left. split; [|reflexivity].
      intros Hd. apply Hdet in Hd. lra.
    + apply Rltb_false in Hlt. right. split; [apply Hdet; exact Hlt|].
      specialize (Hh cnt Hin).
      destruct (boundingRect cnt) as [[[x y] w] h] eqn:Er. cbn [fst snd] in *.
      rewrite (shape_metrics_ok ts _ _ _ w h _ Hh). cbn [bind].
      exists cnt. rewrite Er. cbn [fst snd].
      rewrite (shape_metrics_ok ts _ _ _ w h _ Hh).
      eexists _, _. repeat split; try eassumption; reflexivity.
Qed.

(** A selected contour that passes the area filter and has a bounding
    box of height zero makes [process_frame] raise. *)
Lemma process_frame_zero_height (st : TrackState) (frame : Frame) (ts : Z)
    (c0 : Contour) (rest : list Contour) :
  find_contours frame = c0 :: rest ->
  min_area <= contourArea (max_by contourArea c0 rest) ->
  snd (boundingRect (max_by contourArea c0 rest)) = 0%Z ->
  process_frame st frame ts = Raise ZeroDivisionError.
Proof.
  intros E Hmin Hh. unfold Tracker.process_frame. rewrite E.
  rewrite (proj2 (Rltb_false _ _) Hmin).
  destruct (boundingRect (max_by contourArea c0 rest)) as [[[x y] w] h].
  cbn [snd] in Hh. subst h. rewrite shape_metrics_zero_height. reflexivity.
Qed.

(** C6 (detection decides the record).  When the bounding boxes of the
    frame's contours have non-zero height, [process_frame] returns, and it
    appends a record exactly when the frame has an external contour of
    largest area reaching [min_area]; otherwise the two lists are unchanged
    and the frame handed back is the frame received, with nothing drawn on
    it. *)
Theorem C6_record_iff_detected :
  forall (st : TrackState) (frame : Frame) (ts : Z),
    (forall c, In c (find_contours frame) -> snd (boundingRect c) <> 0%Z) ->
    exists st' frame',
      process_frame st frame ts = Ok (st', frame') /\
      ((exists rec, contour_data st' = contour_data st ++ [rec]) <->
       detected frame) /\
      (~ detected frame -> st' = st /\ frame' = frame).
Proof.
  intros st frame ts Hh.
  destruct (process_frame_cases st frame ts Hh)
    as [[Hnd E] | [Hd (cnt & rec & frame' & _ & _ & _ & E)]].
  - exists st, frame. split; [exact E|]. split; [|auto].
    split; [|intros Hd; contradiction].
    intros [rec Hrec]. apply (f_equal (@length _)) in Hrec.
    rewrite length_app in Hrec. cbn in Hrec. lia.
  - eexists _, frame'. split; [exact E|]. split.
    + split; [intros _; exact Hd|]. intros _. exists rec. reflexivity.
    + intros Hnd. contradiction.
Qed.


End ProcessFrame.

(** ** OrganoidTracker.py: the frame loop *)

Section FrameLoop.

Import Tracker.
Open Scope Z_scope.

Variables Frame Contour : Type.
Variable find_contours : Frame -> list Contour.
Variable contourArea : Contour -> R.
Variable arcLength : Contour -> R.
Variable moments : Contour -> Moments.
Variable boundingRect : Contour -> Z * Z * Z * Z.
Variable convexHull : Contour -> Contour.
Variable drawContours : Frame -> Contour -> Frame.
Variable circle : Frame -> Z -> Z -> Frame.
Variable putText : Frame -> Z -> R -> Z -> Z -> Frame.

Local Abbreviation process_frame :=
  (process_frame Frame Contour find_contours contourArea arcLength moments
     boundingRect convexHull drawContours circle putText).
Local Abbreviation main_loop :=
  (main_loop Frame Contour find_contours contourArea arcLength moments
     boundingRect convexHull drawContours circle putText).
Local Abbreviation main :=
  (main Frame Contour find_contours contourArea arcLength moments
     boundingRect convexHull drawContours circle putText).
Local Abbreviation contour_data := (contour_data Contour).

(** Rounding to nearest stays within half a divisor of the exact
    quotient. *)
Lemma divide_and_round_near (a b : Z) :
  0 < b -> 2 * Z.abs (divide_and_round a b * b - a) <= b.
Proof.
  intros Hb. unfold divide_and_round.
  pose proof (Z.div_mod a b ltac:(lia)) as Hdm.
  pose proof (Z.mod_pos_bound a b Hb) as Hr.
  set (q := a / b) in *. set (r := a mod b) in *.
  rewrite (proj2 (Z.ltb_lt 0 b) Hb).
  destruct (b <? 2 * r) eqn:E1; cbn [orb].
  - apply Z.ltb_lt in E1. nia.
  - apply Z.ltb_ge in E1.
    destruct (2 * r =? b) eqn:E2; cbn [andb].
    + apply Z.eqb_eq in E2. destruct (q mod 2 =? 1); nia.
    + nia.
Qed.

Lemma divide_and_round_pos (a b : Z) :
  0 < b < 2 * a -> 0 < divide_and_round a b.
Proof.
  intros [Hb Ha]. pose proof (divide_and_round_near a b Hb) as H. nia.
Qed.

Lemma frame_period_eq (frame_count fps_period : Z) :
  frame_count <> 0 ->
  frame_period frame_count fps_period =
  divide_and_round total_duration frame_count.
Proof.
  intros H. unfold frame_period.
  rewrite (proj2 (Z.eqb_neq frame_count 0) H). reflexivity.
Qed.

Lemma StronglySorted_snoc (l : list Z) (x : Z) :
  StronglySorted Z.lt l -> Forall (fun y => y < x) l ->
  StronglySorted Z.lt (l ++ [x]).
Proof.
  induction 1 as [|y l Hs IH Hy]; intros Hx; cbn.
  - constructor; constructor.
  - inversion Hx; subst. constructor; [apply IH; assumption|].
    apply Forall_app. split; [assumption|]. constructor; [assumption|constructor].
Qed.

Lemma shape_metrics_timestamp ts a p M w h hull rec :
  shape_metrics ts a p M w h hull = Ok rec -> timestamp rec = ts.
Proof.
  unfold shape_metrics. rewrite centroid_eq. cbn [bind].
  destruct (py_div_int w h); cbn [bind]; [|discriminate].
  destruct (if truthy p then _ else _); cbn [bind]; [|discriminate].
  destruct (if truthy hull then _ else _); cbn [bind]; [|discriminate].
  destruct (if negb (w * h =? 0) then _ else _); cbn [bind]; [|discriminate].
  destruct (if negb (Z.max w h =? 0) then _ else _); cbn [bind];
    [|discriminate].
  intros H. injection H as <-. reflexivity.
Qed.

(** The invariant of the loop: the records are in strictly increasing
    order of time stamp, each time stamp lies before that of the frame to be
    read next, and there are no more records than frames read. *)
Lemma main_loop_invariant (period : Z) (cap : list Frame) :
  0 < period ->
  (forall f c, In f cap -> In c (find_contours f) ->
               snd (boundingRect c) <> 0) ->
  forall (frame_idx : Z) st out,
    0 <= frame_idx ->
    Forall (fun t => t < start_time + frame_idx * period)
           (map timestamp (contour_data st)) ->
    StronglySorted Z.lt (map timestamp (contour_data st)) ->
    exists st' out',
      main_loop period cap frame_idx st out = Ok (st', out') /\
      Forall (fun t => t < start_time
                           + (frame_idx + Z.of_nat (length cap)) * period)
             (map timestamp (contour_data st')) /\
      StronglySorted Z.lt (map timestamp (contour_data st')) /\
      (length (contour_data st') <= length (contour_data st) + length cap)%nat /\
      length out' = (length out + length cap)%nat.
Proof.
  intros Hp. induction cap as [|frame cap IH]; intros Hh idx st out Hi Hst Hso.
  - exists st, out. cbn [Tracker.main_loop length]. split; [reflexivity|].
    rewrite Z.add_0_r, !Nat.add_0_r. auto.
  - cbn [Tracker.main_loop]. unfold frame_skip. rewrite Z.mod_1_r.
    cbn [Z.eqb negb].
    assert (Hh' : forall f c, In f cap -> In c (find_contours f) ->
                              snd (boundingRect c) <> 0).
    { intros f c Hf. apply Hh. right. exact Hf. }
    assert (Hmono : forall t, t < start_time + idx * period ->
                              t < start_time + (idx + 1) * period).
    { intros t Ht. nia. }
    destruct (process_frame_cases Frame Contour find_contours contourArea
                arcLength moments boundingRect convexHull drawContours circle
                putText st frame (start_time + idx * period)
                (fun c => Hh frame c (or_introl eq_refl)))
      as [[_ E] | [_ (cnt & rec & frame' & _ & _ & Hrec & E)]];
      rewrite E; cbn [bind fst snd].
    + destruct (IH Hh' (idx + 1) st (out ++ [frame]) ltac:(lia))
        as (st' & out' & E' & H1 & H2 & H3 & H4).
      * eapply Forall_impl; [exact Hmono | exact Hst].
      * exact Hso.
      * exists st', out'. split; [exact E'|].
        rewrite length_app in H4. cbn [length] in *.
        replace (idx + Z.of_nat (S (length cap)))
          with (idx + 1 + Z.of_nat (length cap)) by lia.
        repeat split; [exact H1 | exact H2 | lia | lia].
    + apply shape_metrics_timestamp in Hrec.
      match goal with
      | |- context [Tracker.main_loop _ _ _ _ _ _ _ _ _ _ _ _ _ _ ?s _] =>
          set (st1 := s)
      end.
      destruct (IH Hh' (idx + 1) st1 (out ++ [frame']) ltac:(lia))
        as (st' & out' & E' & H1 & H2 & H3 & H4).
      * subst st1. cbn [Tracker.contour_data]. rewrite map_app. cbn [map].
        apply Forall_app. split.
        -- eapply Forall_impl; [exact Hmono | exact Hst].
        -- constructor; [|constructor]. rewrite Hrec. nia.
      * subst st1. cbn [Tracker.contour_data]. rewrite map_app. cbn [map].
        apply StronglySorted_snoc; [exact Hso|].
        rewrite Hrec. exact Hst.
      * exists st', out'. split; [exact E'|].
        subst st1. cbn [Tracker.contour_data] in H3.
        rewrite length_app in H3, H4. cbn [length] in *.
        replace (idx + Z.of_nat (S (length cap)))
          with (idx + 1 + Z.of_nat (length cap)) by lia.
        repeat split; [exact H1 | exact H2 | lia | lia].
Qed.

End FrameLoop.

(** ** OrganoidTracker.py: examples on the small OpenCV *)

Section TrackerExamples.

Import Tracker.
Open Scope R_scope.

Lemma toy_heights (cs : list ToyContour) :
  Forall (fun c => snd (toy_rect c) <> 0%Z) cs ->
  forall c, In c (toy_contours (frame_of cs)) -> snd (toy_rect c) <> 0%Z.
Proof.
  intros H c Hc. cbn in Hc. rewrite Forall_forall in H. apply H. exact Hc.
Qed.

Lemma toy_detected_blob :
  detected ToyFrame ToyContour toy_contours toy_area (frame_of [speck; blob]).
Proof.
  exists blob. cbn. unfold min_area. repeat split.
  - right. left. reflexivity.
  - intros c [<-|[<-|[]]]; cbn; lra.
  - lra.
Qed.

(** A frame with a speck and a blob gets one record. *)
Lemma C6_witness :
  exists st' frame',
    toy_process_frame (init_state ToyContour) (frame_of [speck; blob]) 0
    = Ok (st', frame') /\
    length (contour_data ToyContour st') = 1%nat.
Proof.
  destruct (C6_record_iff_detected ToyFrame ToyContour toy_contours toy_area
              toy_perimeter toy_moments toy_rect toy_hull
              (fun f _ => toy_draw f) (fun f _ _ => toy_draw f)
              (fun f _ _ _ _ => toy_draw f)
              (init_state ToyContour) (frame_of [speck; blob]) 0%Z)
    as (st' & frame' & E & [_ Hrec] & _).
  - apply toy_heights. repeat constructor; cbn; discriminate.
  - exists st', frame'. split; [exact E|].
    destruct (Hrec toy_detected_blob) as [rec ->]. reflexivity.
Defined.





(** C5, as stated, fails: for moments [m00 = 3000], [m10 = 2701500] the
    quotient is 900.5 and the recorded [centroid_x] is 900. *)
Lemma C5_counterexample :
  exists rec,
    shape_metrics 0 3000 200 {| m00 := 3000; m10 := 2701500; m01 := 2850000 |}
                  70 60 3100 = Ok rec /\
    centroid_x rec = 900%Z /\
    IZR (centroid_x rec) <> 2701500 / 3000.
Proof.
  eexists. split; [apply shape_metrics_ok; discriminate|].
  cbn [centroid_x m00 m10 m01]. rtest.
  assert (E : py_int (2701500 / 3000) = 900%Z).
  { apply py_int_spec; intros; lra. }
  rewrite E. split; [reflexivity | lra].
Qed.

(** C5, amended (centroid).  With a bounding box of non-zero height the
    record is built, and its centroid is the pair of quotients [m10 / m00]
    and [m01 / m00] truncated towards zero to integers, each within one
    pixel of the quotient, when [m00] is not zero; it is [(0, 0)] when
    [m00] is zero. *)
Theorem C5_centroid_truncated_quotient :
  forall (ts : Z) (a p : R) (M : Moments) (w h : Z) (hull : R),
    h <> 0%Z ->
    exists rec,
      shape_metrics ts a p M w h hull = Ok rec /\
      (m00 M <> 0 ->
       centroid_x rec = py_int (m10 M / m00 M) /\
       centroid_y rec = py_int (m01 M / m00 M) /\
       Rabs (IZR (centroid_x rec) - m10 M / m00 M) < 1 /\
       Rabs (IZR (centroid_y rec) - m01 M / m00 M) < 1) /\
      (m00 M = 0 -> centroid_x rec = 0%Z /\ centroid_y rec = 0%Z).
Proof.
  intros ts a p M w h hull Hh. eexists.
  split; [apply shape_metrics_ok; exact Hh|].
  cbn [centroid_x centroid_y]. split; intros H0.
  - rewrite (proj2 (Reqb_false _ _) H0).
    repeat split; try reflexivity; apply py_int_bounds.
  - rewrite (proj2 (Reqb_true _ _) H0). split; reflexivity.
Qed.

Lemma C5_witness :
  exists rec,
    shape_metrics 0 3000 200 {| m00 := 3000; m10 := 2701500; m01 := 2850000 |}
                  70 60 3100 = Ok rec /\
    centroid_x rec = 900%Z /\ centroid_y rec = 950%Z.
Proof.
  destruct (C5_centroid_truncated_quotient 0 3000 200
              {| m00 := 3000; m10 := 2701500; m01 := 2850000 |} 70 60 3100)
    as (rec & E & Hq & _).
  - discriminate.
  - exists rec. split; [exact E|].
    destruct Hq as (Hx & Hy & _); [cbn; lra|].
    cbn [m00 m10 m01] in Hx, Hy. rewrite Hx, Hy.
    split; apply py_int_spec; intros; lra.
Defined.

End TrackerExamples.

(** ** Gap filling *)

Section GapFilling.

Import NP Pandas Plotter.
Open Scope R_scope.

Lemma div_fin (a b : R) : b <> 0 -> div (Fin a) (Fin b) = Fin (a / b).
Proof. intros H. cbn. rewrite (proj2 (Reqb_false b 0) H). reflexivity. Qed.

Lemma next_valid_nans (k : nat) (x : float) (t : list float) :
  isnan x = false ->
  next_valid (repeat NaN k ++ x :: t) = Some (k, x).
Proof.
  intros Hx. induction k as [|k IH]; cbn.
  - rewrite Hx. reflexivity.
  - rewrite IH. reflexivity.
Qed.

Lemma next_valid_all_nans (k : nat) : next_valid (repeat NaN k) = None.
Proof. induction k as [|k IH]; cbn; [|rewrite IH]; reflexivity. Qed.

(** A present value cuts the list: what is filled before it does not
    depend on what follows it. *)
Lemma next_valid_cut (u : list float) (x : float) (v : list float) :
  isnan x = false -> next_valid (u ++ x :: v) = next_valid (u ++ [x]).
Proof.
  intros Hx. induction u as [|y u IH]; cbn.
  - rewrite Hx. reflexivity.
  - rewrite IH. reflexivity.
Qed.

Lemma interp_after_cut (u : list float) (x : float) :
  isnan x = false ->
  forall y0 d, exists g,
    length g = length u /\
    forall v, interp_after y0 d (u ++ x :: v) = g ++ x :: interp_after x 1 v.
Proof.
  intros Hx. induction u as [|y u IH]; intros y0 d.
  - exists []. split; [reflexivity|]. intros v. cbn. rewrite Hx. reflexivity.
  - cbn [app interp_after]. destruct (isnan y).
    + destruct (IH y0 (S d)) as (g & Hg & E).
      eexists (_ :: g). split; [cbn; rewrite Hg; reflexivity|].
      intros v. rewrite E, next_valid_cut by exact Hx. cbn [app].
      reflexivity.
    + destruct (IH y 1%nat) as (g & Hg & E).
      exists (y :: g). split; [cbn; rewrite Hg; reflexivity|].
      intros v. rewrite E. reflexivity.
Qed.

Lemma interpolate_cut (u : list float) (x : float) :
  isnan x = false ->
  exists g,
    length g = length u /\
    forall v, interpolate (u ++ x :: v) = g ++ x :: interp_after x 1 v.
Proof.
  intros Hx. induction u as [|y u IH].
  - exists []. split; [reflexivity|]. intros v. cbn. rewrite Hx. reflexivity.
  - cbn [app interpolate]. destruct (isnan y).
    + destruct IH as (g & Hg & E). exists (y :: g).
      split; [cbn; rewrite Hg; reflexivity|].
      intros v. rewrite E. reflexivity.
    + destruct (interp_after_cut u x Hx y 1%nat) as (g & Hg & E).
      exists (y :: g). split; [cbn; rewrite Hg; reflexivity|].
      intros v. rewrite E. reflexivity.
Qed.

Lemma bfill_cut (u : list float) (x : float) :
  isnan x = false ->
  exists g,
    length g = length u /\
    forall v, bfill (u ++ x :: v) = g ++ x :: bfill v.
Proof.
  intros Hx. induction u as [|y u IH].
  - exists []. split; [reflexivity|]. intros v. cbn. rewrite Hx. reflexivity.
  - destruct IH as (g & Hg & E).
    exists ((if isnan y then match g ++ [x] with z :: _ => z | [] => y end
             else y) :: g).
    split; [cbn; rewrite Hg; reflexivity|].
    intros v. cbn [app bfill]. rewrite E. cbn [app]. f_equal.
    destruct g; reflexivity.
Qed.

Lemma ffill_from_cut (u : list float) (x : float) :
  isnan x = false ->
  forall last, exists g,
    length g = length u /\
    forall v, ffill_from last (u ++ x :: v) = g ++ x :: ffill_from x v.
Proof.
  intros Hx. induction u as [|y u IH]; intros last.
  - exists []. split; [reflexivity|]. intros v. cbn. rewrite Hx. reflexivity.
  - cbn [app ffill_from]. destruct (isnan y).
    + destruct (IH last) as (g & Hg & E). exists (last :: g).
      split; [cbn; rewrite Hg; reflexivity|]. intros v. rewrite E. reflexivity.
    + destruct (IH y) as (g & Hg & E). exists (y :: g).
      split; [cbn; rewrite Hg; reflexivity|]. intros v. rewrite E. reflexivity.
Qed.

(** Filling of what follows a present value [x]. *)
Lemma gap_fill_cut (u : list float) (x : float) :
  isnan x = false ->
  exists g,
    length g = length u /\
    forall v, gap_fill (u ++ x :: v)
              = g ++ x :: ffill_from x (bfill (interp_after x 1 v)).
Proof.
  intros Hx. unfold gap_fill, ffill.
  destruct (interpolate_cut u x Hx) as (g1 & H1 & E1).
  destruct (bfill_cut g1 x Hx) as (g2 & H2 & E2).
  destruct (ffill_from_cut g2 x Hx NaN) as (g3 & H3 & E3).
  exists g3. split; [congruence|].
  intros v. rewrite E1, E2, E3. reflexivity.
Qed.

Lemma gap_fill_app (u : list float) (x : float) (v : list float) :
  isnan x = false ->
  gap_fill (u ++ x :: v)
  = gap_fill (u ++ [x]) ++ ffill_from x (bfill (interp_after x 1 v)).
Proof.
  intros Hx. destruct (gap_fill_cut u x Hx) as (g & _ & E).
  rewrite (E v), (E []). cbn. rewrite <- app_assoc. reflexivity.
Qed.

Lemma gap_fill_head (x : float) (v : list float) :
  isnan x = false ->
  gap_fill (x :: v) = x :: ffill_from x (bfill (interp_after x 1 v)).
Proof.
  intros Hx. unfold gap_fill, ffill.
  cbn [interpolate]. rewrite Hx. cbn [bfill]. rewrite Hx.
  cbn [ffill_from]. rewrite Hx. reflexivity.
Qed.

End GapFilling.

Section GapFillingRuns.

Import NP Pandas Plotter.
Open Scope R_scope.

Lemma bfill_valid_app (g w : list float) :
  Forall valid g -> bfill (g ++ w) = g ++ bfill w.
Proof.
  induction 1 as [|x g Hx _ IH]; [reflexivity|].
  cbn [app bfill]. rewrite IH, Hx. reflexivity.
Qed.

Lemma ffill_from_valid_app (g : list float) (x : float) (z : list float) :
  Forall valid g -> valid x ->
  forall last, ffill_from last (g ++ x :: z) = g ++ x :: ffill_from x z.
Proof.
  intros Hg Hx. induction Hg as [|y g Hy _ IH]; intros last.
  - cbn. rewrite Hx. reflexivity.
  - cbn [app ffill_from]. rewrite Hy, IH. reflexivity.
Qed.

Lemma ffill_from_valid (g : list float) :
  Forall valid g -> forall last, ffill_from last g = g.
Proof.
  induction 1 as [|y g Hy _ IH]; intros last; [reflexivity|].
  cbn. rewrite Hy, IH. reflexivity.
Qed.

Lemma Forall_valid_repeat (x : float) (k : nat) :
  valid x -> Forall valid (repeat x k).
Proof. intros Hx. induction k; cbn; constructor; assumption. Qed.

(** Inside a gap: the values of [np.interp] at the positions [d], [d + 1],
    ... after the last present value, [total] being the distance between
    the two present values. *)
Lemma interp_after_gap (a b : R) (r : list float) :
  forall (k d total : nat),
    total = (d + k)%nat -> (0 < total)%nat ->
    interp_after (Fin a) d (repeat NaN k ++ Fin b :: r)
    = map (fun p => Fin ((b + - a) / INR total * INR p + a)) (seq d k)
      ++ Fin b :: interp_after (Fin b) 1 r.
Proof.
  induction k as [|k IH]; intros d total Ht Hpos.
  - reflexivity.
  - cbn [repeat app interp_after isnan seq map].
    rewrite next_valid_nans by reflexivity.
    rewrite (IH (S d) total) by lia. f_equal.
    replace (d + k + 1)%nat with total by lia.
    unfold sub, of_nat. cbn [neg add].
    rewrite div_fin by (apply not_0_INR; lia). reflexivity.
Qed.

Lemma interp_after_trailing (a : R) :
  forall (k d : nat), interp_after (Fin a) d (repeat NaN k) = repeat (Fin a) k.
Proof.
  induction k as [|k IH]; intros d; [reflexivity|].
  cbn [repeat interp_after isnan]. rewrite next_valid_all_nans, IH.
  reflexivity.
Qed.

Lemma interpolate_leading (k : nat) (t : list float) :
  interpolate (repeat NaN k ++ t) = repeat NaN k ++ interpolate t.
Proof. induction k as [|k IH]; cbn; [|rewrite IH]; reflexivity. Qed.

Lemma bfill_leading (k : nat) (x : float) (t : list float) :
  valid x -> bfill (repeat NaN k ++ x :: t) = repeat x k ++ x :: bfill t.
Proof.
  intros Hx. induction k as [|k IH].
  - cbn. rewrite Hx. reflexivity.
  - cbn [repeat app bfill isnan]. rewrite IH.
    destruct k; reflexivity.
Qed.

Lemma ramp_eq (a b : R) (k : nat) :
  map (fun p => Fin ((b + - a) / INR (1 + k) * INR p + a)) (seq 1 k)
  = ramp a b k.
Proof.
  unfold ramp. rewrite <- seq_shift, map_map. apply map_ext.
  intros j. f_equal.
  replace (j + 1)%nat with (S j) by lia.
  replace (k + 1)%nat with (1 + k)%nat by lia.
  field. apply not_0_INR. discriminate.
Qed.

Lemma Forall_valid_ramp (a b : R) (k : nat) : Forall valid (ramp a b k).
Proof.
  unfold ramp. apply Forall_forall. intros x Hx.
  apply in_map_iff in Hx. destruct Hx as (j & <- & _). reflexivity.
Qed.

(** Interpolated values lie between the two numbers that bound the
    gap. *)
Lemma ramp_between (a b : R) (k : nat) (x : R) :
  In (Fin x) (ramp a b k) -> Rmin a b <= x <= Rmax a b.
Proof.
  unfold ramp. intros H. apply in_map_iff in H.
  destruct H as (j & E & Hj). injection E as <-.
  apply in_seq in Hj.
  assert (Hk : 0 < INR (k + 1)) by (apply lt_0_INR; lia).
  assert (H0 : 0 <= INR (j + 1)) by apply pos_INR.
  assert (H1 : INR (j + 1) <= INR (k + 1)) by (apply le_INR; lia).
  set (t := INR (j + 1) / INR (k + 1)).
  assert (Ht : 0 <= t <= 1).
  { unfold t. split.
    - apply Rmult_le_pos; [exact H0|]. left. apply Rinv_0_lt_compat. exact Hk.
    - apply Rmult_le_reg_r with (INR (k + 1)); [exact Hk|].
      unfold Rdiv. rewrite Rmult_assoc, Rinv_l by lra. lra. }
  replace (a + (b - a) * INR (j + 1) / INR (k + 1)) with (a + (b - a) * t)
    by (unfold t; field; lra).
  unfold Rmin, Rmax. destruct (Rle_dec a b); nra.
Qed.

Lemma gap_fill_interior (l : list float) (a : R) (k : nat) (b : R)
    (r : list float) :
  gap_fill (l ++ Fin a :: repeat NaN k ++ Fin b :: r)
  = gap_fill (l ++ [Fin a]) ++ ramp a b k ++ gap_fill (Fin b :: r).
Proof.
  rewrite gap_fill_app by reflexivity. f_equal.
  rewrite (interp_after_gap a b r k 1 (1 + k)) by lia.
  rewrite ramp_eq.
  rewrite bfill_valid_app by apply Forall_valid_ramp.
  cbn [bfill isnan].
  rewrite ffill_from_valid_app by (try apply Forall_valid_ramp; reflexivity).
  rewrite gap_fill_head by reflexivity. reflexivity.
Qed.

Lemma gap_fill_leading (k : nat) (a : R) (r : list float) :
  gap_fill (repeat NaN k ++ Fin a :: r)
  = repeat (Fin a) k ++ gap_fill (Fin a :: r).
Proof.
  rewrite gap_fill_head by reflexivity.
  unfold gap_fill, ffill. rewrite interpolate_leading.
  cbn [interpolate isnan]. rewrite bfill_leading by reflexivity.
  rewrite ffill_from_valid_app
    by (try apply Forall_valid_repeat; reflexivity).
  reflexivity.
Qed.

Lemma gap_fill_trailing (l : list float) (a : R) (k : nat) :
  gap_fill (l ++ Fin a :: repeat NaN k)
  = gap_fill (l ++ [Fin a]) ++ repeat (Fin a) k.
Proof.
  rewrite gap_fill_app by reflexivity. f_equal.
  rewrite interp_after_trailing.
  rewrite <- (app_nil_r (repeat (Fin a) k)) at 1.
  rewrite bfill_valid_app by (apply Forall_valid_repeat; reflexivity).
  cbn [bfill]. rewrite app_nil_r.
  apply ffill_from_valid. apply Forall_valid_repeat. reflexivity.
Qed.

Lemma gap_fill_keeps (u : list float) (a : R) (v : list float) :
  nth (length u) (gap_fill (u ++ Fin a :: v)) NaN = Fin a.
Proof.
  destruct (gap_fill_cut u (Fin a) eq_refl) as (g & Hg & E).
  rewrite E, <- Hg, nth_middle. reflexivity.
Qed.

(** C8 (gap filling).  The series [1, nan, nan, 4] is filled to
    [1, 2, 3, 4].  In general: a run of missing values between two numbers
    [a] and [b] receives the values of the straight line from [a] to [b],
    whatever surrounds the two numbers; a leading run of missing values
    receives the first number; a trailing run receives the last number;
    numbers already present are kept. *)
Theorem C8_gap_filling :
  gap_fill [Fin 1; NaN; NaN; Fin 4] = [Fin 1; Fin 2; Fin 3; Fin 4] /\
  (forall (l : list float) (a : R) (k : nat) (b : R) (r : list float),
      gap_fill (l ++ Fin a :: repeat NaN k ++ Fin b :: r)
      = gap_fill (l ++ [Fin a]) ++ ramp a b k ++ gap_fill (Fin b :: r)) /\
  (forall (k : nat) (a : R) (r : list float),
      gap_fill (repeat NaN k ++ Fin a :: r)
      = repeat (Fin a) k ++ gap_fill (Fin a :: r)) /\
  (forall (l : list float) (a : R) (k : nat),
      gap_fill (l ++ Fin a :: repeat NaN k)
      = gap_fill (l ++ [Fin a]) ++ repeat (Fin a) k) /\
  (forall (u : list float) (a : R) (v : list float),
      nth (length u) (gap_fill (u ++ Fin a :: v)) NaN = Fin a).
Proof.
  split; [|split; [exact gap_fill_interior|
           split; [exact gap_fill_leading|
           split; [exact gap_fill_trailing | exact gap_fill_keeps]]]].
  change [Fin 1; NaN; NaN; Fin 4]
    with ([] ++ Fin 1 :: repeat NaN 2 ++ Fin 4 :: []).
  rewrite gap_fill_interior. cbn [app].
  rewrite !gap_fill_head by reflexivity.
  cbn [app interp_after bfill ffill_from ramp seq map Nat.add INR].
  repeat (f_equal; try lra).
Qed.

End GapFillingRuns.

(** ** Z-score rejection *)

Section ZScore.

Import NP Pandas Plotter.
Open Scope R_scope.

Lemma nansum_reals (xs : list float) :
  forallb fin_or_nan xs = true -> nansum xs = Fin (Rsum (reals xs)).
Proof.
  induction xs as [|x xs IH]; cbn [forallb nansum reals Rsum]; intros H.
  - reflexivity.
  - apply andb_prop in H. destruct H as [Hx Hxs].
    destruct x; try discriminate; cbn [isnan].
    + rewrite (IH Hxs). reflexivity.
    + exact (IH Hxs).
Qed.

Lemma count_reals (xs : list float) :
  forallb fin_or_nan xs = true -> count xs = length (reals xs).
Proof.
  induction xs as [|x xs IH]; cbn [forallb count reals]; intros H.
  - reflexivity.
  - apply andb_prop in H. destruct H as [Hx Hxs].
    destruct x; try discriminate; cbn [isnan length]; rewrite (IH Hxs);
      reflexivity.
Qed.

Lemma reals_nil_all_nan (xs : list float) :
  forallb fin_or_nan xs = true -> reals xs = [] ->
  forall x, In x xs -> x = NaN.
Proof.
  induction xs as [|y xs IH]; cbn [forallb reals]; intros H E x Hx.
  - destruct Hx.
  - apply andb_prop in H. destruct H as [Hy Hxs].
    destruct y; try discriminate.
    destruct Hx as [<-|Hx]; [reflexivity | exact (IH Hxs E x Hx)].
Qed.

Lemma in_reals (xs : list float) (r : R) : In (Fin r) xs -> In r (reals xs).
Proof.
  induction xs as [|y xs IH]; cbn [reals In]; [tauto|].
  intros [->|H]; [left; reflexivity|].
  destruct y; try (right); auto.
Qed.

Lemma reals_in (xs : list float) (r : R) : In r (reals xs) -> In (Fin r) xs.
Proof.
  induction xs as [|y xs IH]; cbn [reals In]; [tauto|].
  destruct y; cbn [In]; intros H; auto.
  destruct H as [->|H]; auto.
Qed.

Lemma Rsum_squares_nonneg (m : R) (l : list R) :
  0 <= Rsum (map (fun r => (m - r) * (m - r)) l).
Proof.
  induction l as [|r l IH]; cbn [map Rsum]; [lra|].
  pose proof (Rle_0_sqr (m - r)) as H. unfold Rsqr in H. lra.
Qed.

Lemma Rsum_squares_zero (m : R) (l : list R) :
  Rsum (map (fun r => (m - r) * (m - r)) l) = 0 ->
  forall r, In r l -> r = m.
Proof.
  induction l as [|x l IH]; cbn [map Rsum In]; intros H r Hr; [tauto|].
  pose proof (Rsum_squares_nonneg m l) as Hl.
  pose proof (Rle_0_sqr (m - x)) as Hx. unfold Rsqr in Hx.
  destruct Hr as [<-|Hr].
  - assert (E : (m - x) * (m - x) = 0) by lra.
    apply Rmult_integral in E. lra.
  - apply IH; [lra | exact Hr].
Qed.

Lemma INR_length_pos (A : Type) (l : list A) : l <> [] -> 0 < INR (length l).
Proof.
  intros H. destruct l; [contradiction|]. apply lt_0_INR. cbn. lia.
Qed.

Lemma Rvar_nonneg (l : list R) : l <> [] -> 0 <= Rvar l.
Proof.
  intros H. unfold Rvar. apply Rmult_le_pos.
  - apply Rsum_squares_nonneg.
  - left. apply Rinv_0_lt_compat. apply INR_length_pos. exact H.
Qed.

Lemma Rvar_zero (l : list R) :
  l <> [] -> Rvar l = 0 -> forall r, In r l -> r = Rmean l.
Proof.
  intros Hl Hv. apply Rsum_squares_zero.
  pose proof (INR_length_pos _ l Hl) as Hn. unfold Rvar in Hv.
  apply Rmult_integral in Hv. destruct Hv as [Hv|Hv]; [exact Hv|].
  pose proof (Rinv_0_lt_compat _ Hn). lra.
Qed.

Lemma mean_reals (xs : list float) :
  forallb fin_or_nan xs = true -> reals xs <> [] ->
  mean xs = Fin (Rmean (reals xs)).
Proof.
  intros H Hne. unfold mean.
  pose proof (INR_length_pos _ _ Hne) as Hn.
  rewrite (count_reals xs H) in *. rewrite (nansum_reals xs H).
  destruct (length (reals xs)) eqn:E.
  - cbn in Hn. lra.
  - unfold of_nat. rewrite div_fin by lra. unfold Rmean. rewrite E.
    reflexivity.
Qed.

Lemma sqr_reals (m : R) (xs : list float) :
  forallb fin_or_nan xs = true ->
  forallb fin_or_nan
    (map (fun x => mul (sub (Fin m) x) (sub (Fin m) x)) xs) = true /\
  reals (map (fun x => mul (sub (Fin m) x) (sub (Fin m) x)) xs)
  = map (fun r => (m - r) * (m - r)) (reals xs).
Proof.
  set (f := fun x => mul (sub (Fin m) x) (sub (Fin m) x)).
  induction xs as [|x xs IH]; intros H.
  - split; reflexivity.
  - cbn [forallb] in H. apply andb_prop in H. destruct H as [Hx Hxs].
    destruct (IH Hxs) as [IH1 IH2].
    destruct x as [r| | |]; try discriminate; cbn [map forallb reals].
    + change (f (Fin r)) with (Fin ((m - r) * (m - r))).
      cbn [fin_or_nan reals andb]. rewrite IH1, IH2. split; reflexivity.
    + change (f NaN) with NaN.
      cbn [fin_or_nan reals andb]. rewrite IH1, IH2. split; reflexivity.
Qed.

Lemma std0_reals (xs : list float) :
  forallb fin_or_nan xs = true -> reals xs <> [] ->
  std0 xs = Fin (R_sqrt.sqrt (Rvar (reals xs))).
Proof.
  intros H Hne. unfold std0.
  pose proof (INR_length_pos _ _ Hne) as Hn.
  pose proof (Rvar_nonneg _ Hne) as Hv.
  rewrite (count_reals xs H) in *. rewrite (nansum_reals xs H).
  destruct (length (reals xs)) eqn:E; [cbn in Hn; lra|].
  unfold of_nat. rewrite div_fin by lra. cbv zeta.
  destruct (sqr_reals (Rsum (reals xs) / INR (S n)) xs H) as [H1 H2].
  rewrite (nansum_reals _ H1), H2.
  rewrite div_fin by lra. unfold sqrt.
  unfold Rvar, Rmean in Hv |- *. rewrite E in Hv |- *.
  rewrite (proj2 (Rltb_false _ _) Hv). reflexivity.
Qed.

Lemma mask_map (h : float -> bool) (xs : list float) :
  mask xs (map h xs) = map (fun x => if h x then NaN else x) xs.
Proof.
  induction xs as [|x xs IH]; cbn; [|rewrite IH]; reflexivity.
Qed.

(** The comparison [|d / sqrt v| > 3] on squares. *)
Lemma zscore_test (d v : R) :
  0 < v ->
  Rltb 3 (Rabs (d / R_sqrt.sqrt v)) = Rltb (9 * v) (d * d).
Proof.
  intros Hv. pose proof (sqrt_lt_R0 v Hv) as Hs.
  pose proof (sqrt_sqrt v (Rlt_le _ _ Hv)) as Hss.
  set (s := R_sqrt.sqrt v) in *.
  assert (Habs : Rabs (d / s) = Rabs d / s).
  { unfold Rdiv. rewrite Rabs_mult, (Rabs_pos_eq (/ s)); [reflexivity|].
    left. apply Rinv_0_lt_compat. exact Hs. }
  rewrite Habs.
  assert (Hiff : 3 < Rabs d / s <-> 9 * v < d * d).
  { assert (Hd : Rabs d * Rabs d = d * d).
    { unfold Rabs. destruct (Rcase_abs d); lra. }
    pose proof (Rabs_pos d) as Hd0.
    assert (Hq : Rabs d / s * s = Rabs d) by (field; lra).
    split; intros H.
    - assert (3 * s < Rabs d) by nra. nra.
    - assert (3 * s < Rabs d) by nra.
      apply Rmult_lt_reg_r with s; [exact Hs|]. lra. }
  destruct (Rltb 3 (Rabs d / s)) eqn:E1; destruct (Rltb (9 * v) (d * d)) eqn:E2;
    try reflexivity.
  - apply Rltb_true in E1. apply Rltb_false in E2. apply Hiff in E1. lra.
  - apply Rltb_false in E1. apply Rltb_true in E2. apply Hiff in E2. lra.
Qed.

(** On values without infinities the rejection of lines 65-66 is the test
    on squares with the mean and the population variance of the numbers
    present. *)
Lemma zscore_filter_spec (xs : list float) :
  forallb fin_or_nan xs = true ->
  zscore_filter xs
  = map (zmask (Rmean (reals xs)) (Rvar (reals xs))) xs.
Proof.
  intros H. unfold zscore_filter, z_scores. cbv zeta.
  rewrite map_map, mask_map.
  destruct (reals xs) as [|r0 l0] eqn:El.
  - apply map_ext_in. intros x Hx.
    rewrite (reals_nil_all_nan xs H El x Hx). reflexivity.
  - assert (Hne : reals xs <> []) by (rewrite El; discriminate).
    rewrite (mean_reals xs H Hne), (std0_reals xs H Hne). rewrite El.
    set (l := r0 :: l0) in *.
    pose proof (Rvar_nonneg (reals xs) Hne) as Hv. rewrite El in Hv.
    apply map_ext_in. intros x Hx.
    rewrite forallb_forall in H. specialize (H x Hx).
    destruct x as [r| | |]; try discriminate; [|reflexivity].
    unfold sub, gtb, of_Z, z_thresh. cbn [neg add zmask].
    destruct (Req_dec_T (Rvar l) 0) as [Hv0|Hv0].
    + assert (Hr : r = Rmean l).
      { rewrite <- El in Hv0 |- *. apply (Rvar_zero _ Hne Hv0).
        apply in_reals. exact Hx. }
      rewrite Hv0, sqrt_0. cbn [div]. rewrite Reqb_refl.
      unfold signed_inf.
      rewrite (proj2 (Reqb_true (r + - Rmean l) 0)) by lra.
      cbn [abs ltb].
      rewrite (proj2 (Rltb_false (9 * 0) ((r - Rmean l) * (r - Rmean l))));
        [reflexivity|]. nra.
    + assert (Hpos : 0 < Rvar l) by lra.
      pose proof (sqrt_lt_R0 _ Hpos) as Hs.
      rewrite div_fin by lra. cbn [abs ltb].
      rewrite zscore_test by exact Hpos.
      replace ((r + - Rmean l) * (r + - Rmean l))
        with ((r - Rmean l) * (r - Rmean l)) by reflexivity.
      reflexivity.
Qed.

End ZScore.

(** ** Constant series and series with one spike *)

Section ConstantAndSpike.

Import NP Pandas Plotter.
Open Scope R_scope.

Lemma Rsum_app (l1 l2 : list R) : Rsum (l1 ++ l2) = Rsum l1 + Rsum l2.
Proof. induction l1 as [|r l1 IH]; cbn [app Rsum]; [|rewrite IH]; lra. Qed.

Lemma Rsum_map_const (f : R -> R) (c : R) (l : list R) :
  (forall r, In r l -> r = c) -> Rsum (map f l) = INR (length l) * f c.
Proof.
  induction l as [|r l IH]; intros H.
  - cbn. lra.
  - cbn [map Rsum length]. rewrite S_INR, IH.
    + rewrite (H r (or_introl eq_refl)). lra.
    + intros r' Hr'. apply H. right. exact Hr'.
Qed.

Lemma Rmean_const (c : R) (l : list R) :
  l <> [] -> (forall r, In r l -> r = c) -> Rmean l = c.
Proof.
  intros Hne H. pose proof (INR_length_pos _ l Hne) as Hn.
  unfold Rmean. pose proof (Rsum_map_const (fun r => r) c l H) as E.
  rewrite map_id in E. rewrite E. field. lra.
Qed.

Lemma Rvar_const (c : R) (l : list R) :
  l <> [] -> (forall r, In r l -> r = c) -> Rvar l = 0.
Proof.
  intros Hne H. pose proof (INR_length_pos _ l Hne) as Hn.
  unfold Rvar. rewrite (Rmean_const c l Hne H).
  rewrite (Rsum_map_const _ c l H). field. lra.
Qed.

Lemma forallb_fin_or_nan_const (xs : list float) (c : R) :
  (forall x, In x xs -> x = NaN \/ x = Fin c) ->
  forallb fin_or_nan xs = true.
Proof.
  intros H. apply forallb_forall. intros x Hx.
  destruct (H x Hx) as [-> | ->]; reflexivity.
Qed.

Lemma reals_const (xs : list float) (c : R) :
  (forall x, In x xs -> x = NaN \/ x = Fin c) ->
  forall r, In r (reals xs) -> r = c.
Proof.
  intros H r Hr. apply reals_in in Hr.
  destruct (H _ Hr) as [E|E]; [discriminate | congruence].
Qed.

Lemma Rsum_repeat (c : R) (k : nat) : Rsum (repeat c k) = INR k * c.
Proof.
  induction k as [|k IH]; [cbn; lra|].
  cbn [repeat Rsum]. rewrite S_INR, IH. lra.
Qed.

Lemma Rsum_map_repeat (f : R -> R) (c : R) (k : nat) :
  Rsum (map f (repeat c k)) = INR k * f c.
Proof. rewrite map_repeat. apply Rsum_repeat. Qed.

Lemma reals_repeat_fin (c : R) (k : nat) : reals (repeat (Fin c) k) = repeat c k.
Proof. induction k as [|k IH]; cbn; [|rewrite IH]; reflexivity. Qed.

Lemma reals_app (xs ys : list float) : reals (xs ++ ys) = reals xs ++ reals ys.
Proof.
  induction xs as [|x xs IH]; [reflexivity|].
  destruct x; cbn [app reals]; rewrite IH; reflexivity.
Qed.

Lemma reals_spiked (b a : nat) (c s : R) :
  reals (spiked b a c s) = repeat c b ++ s :: repeat c a.
Proof.
  unfold spiked. rewrite reals_app. cbn [reals].
  rewrite !reals_repeat_fin. reflexivity.
Qed.

Lemma fin_or_nan_spiked (b a : nat) (c s : R) :
  forallb fin_or_nan (spiked b a c s) = true.
Proof.
  apply forallb_forall. intros x Hx. unfold spiked in Hx.
  apply in_app_or in Hx. destruct Hx as [Hx|[<-|Hx]];
    try apply repeat_spec in Hx; subst; reflexivity.
Qed.

(** Mean and variance of a constant [c] with one value [s], written with
    [K], the number of constant samples. *)
Lemma spiked_stats (b a : nat) (c s : R) :
  let l := repeat c b ++ s :: repeat c a in
  let K := INR (b + a) in
  Rmean l = c + (s - c) / (K + 1) /\
  Rvar l = K * ((s - c) / (K + 1)) * ((s - c) / (K + 1)).
Proof.
  cbv zeta.
  assert (Hlen : INR (length (repeat c b ++ s :: repeat c a)) = INR (b + a) + 1).
  { rewrite length_app. cbn [length]. rewrite !repeat_length.
    rewrite !plus_INR, S_INR. lra. }
  pose proof (pos_INR (b + a)) as HK.
  assert (Hm : Rmean (repeat c b ++ s :: repeat c a)
               = c + (s - c) / (INR (b + a) + 1)).
  { unfold Rmean. rewrite Hlen, Rsum_app. cbn [Rsum].
    rewrite !Rsum_repeat, plus_INR. field. rewrite <- plus_INR. lra. }
  split; [exact Hm|].
  unfold Rvar. rewrite Hm, Hlen, map_app, Rsum_app. cbn [map Rsum].
  rewrite !Rsum_map_repeat, plus_INR. field. rewrite <- plus_INR. lra.
Qed.

Lemma zmask_spiked_base (b a : nat) (c s : R) :
  (1 <= b + a)%nat ->
  let l := repeat c b ++ s :: repeat c a in
  zmask (Rmean l) (Rvar l) (Fin c) = Fin c.
Proof.
  intros Hn. cbv zeta. destruct (spiked_stats b a c s) as [Hm Hv].
  cbv zeta in Hm, Hv. rewrite Hm, Hv. cbn [zmask].
  assert (HK : 1 <= INR (b + a)).
  { change 1 with (INR 1). apply le_INR. exact Hn. }
  set (K := INR (b + a)) in *. set (q := (s - c) / (K + 1)).
  rewrite (proj2 (Rltb_false _ _)); [reflexivity|].
  replace ((c - (c + q)) * (c - (c + q))) with (q * q) by ring.
  pose proof (Rle_0_sqr q) as Hq. unfold Rsqr in Hq. nra.
Qed.

Lemma zmask_spiked_spike (b a : nat) (c s : R) :
  c <> s ->
  let l := repeat c b ++ s :: repeat c a in
  zmask (Rmean l) (Rvar l) (Fin s)
  = if (10 <=? b + a)%nat then NaN else Fin s.
Proof.
  intros Hcs. cbv zeta. destruct (spiked_stats b a c s) as [Hm Hv].
  cbv zeta in Hm, Hv. rewrite Hm, Hv. cbn [zmask].
  pose proof (pos_INR (b + a)) as HK0.
  set (K := INR (b + a)) in *. set (q := (s - c) / (K + 1)).
  assert (Es : (s - (c + q)) * (s - (c + q)) = K * K * (q * q)).
  { unfold q. field. lra. }
  rewrite Es.
  assert (Hq : 0 < q * q).
  { assert (q <> 0).
    { unfold q. intros E. apply Rmult_integral in E.
      destruct E as [E|E]; [lra|].
      pose proof (Rinv_0_lt_compat (K + 1) ltac:(lra)). lra. }
    pose proof (Rle_0_sqr q) as H0. unfold Rsqr in H0.
    destruct (Req_dec (q * q) 0) as [E|E]; [|lra].
    apply Rmult_integral in E. tauto. }
  destruct (10 <=? b + a)%nat eqn:E.
  - apply Nat.leb_le in E. apply le_INR in E. fold K in E.
    assert (H10 : INR 10 = 10) by (cbn; lra). rewrite H10 in E.
    rewrite (proj2 (Rltb_true _ _)); [reflexivity|].
    assert (9 * K < K * K) by nra. nra.
  - apply Nat.leb_gt in E. assert (E' : (b + a <= 9)%nat) by lia.
    apply le_INR in E'. fold K in E'.
    assert (H9 : INR 9 = 9) by (cbn; lra). rewrite H9 in E'.
    rewrite (proj2 (Rltb_false _ _)); [reflexivity|].
    assert (K * K <= 9 * K) by nra. nra.
Qed.

(** The rejection masks the spike exactly when the series has at least
    eleven samples. *)
Lemma zscore_filter_spiked (b a : nat) (c s : R) :
  c <> s ->
  zscore_filter (spiked b a c s)
  = repeat (Fin c) b
    ++ (if (10 <=? b + a)%nat then NaN else Fin s) :: repeat (Fin c) a.
Proof.
  intros Hcs. rewrite zscore_filter_spec by apply fin_or_nan_spiked.
  rewrite reals_spiked. unfold spiked. rewrite map_app. cbn [map].
  rewrite !map_repeat, (zmask_spiked_spike b a c s Hcs).
  destruct (Nat.eq_dec (b + a) 0) as [E0|E0].
  - assert (b = 0%nat) by lia. assert (a = 0%nat) by lia. subst.
    reflexivity.
  - rewrite (zmask_spiked_base b a c s) by lia. reflexivity.
Qed.

End ConstantAndSpike.

(** ** Constant series in rounded arithmetic *)

Section RoundedConstant.

Import NP Pandas Plotter.
Open Scope R_scope.

Variable rnd : R -> R.
Variable fsum : list R -> R.
Hypothesis Hacc : Rounded.accurate rnd fsum.

Lemma Rabs_le_inv (x y : R) : Rabs x <= y -> - y <= x <= y.
Proof. unfold Rabs. destruct (Rcase_abs x); lra. Qed.

Lemma rnd_abs (x : R) :
  15 / 16 * Rabs x <= Rabs (rnd x) <= 17 / 16 * Rabs x.
Proof.
  destruct Hacc as [H _]. specialize (H x).
  pose proof (Rabs_triang (rnd x - x) x) as H1.
  replace (rnd x - x + x) with (rnd x) in H1 by ring.
  pose proof (Rabs_triang (rnd x) (x - rnd x)) as H2.
  replace (rnd x + (x - rnd x)) with x in H2 by ring.
  rewrite (Rabs_minus_sym x (rnd x)) in H2. lra.
Qed.

Lemma rnd_zero : rnd 0 = 0.
Proof.
  pose proof (rnd_abs 0) as [_ H]. rewrite Rabs_R0 in H.
  pose proof (Rabs_pos (rnd 0)) as H0.
  destruct (Req_dec (rnd 0) 0) as [E|E]; [exact E|].
  pose proof (Rabs_pos_lt _ E). lra.
Qed.

Lemma rnd_nonneg (x : R) : 0 <= x -> 15 / 16 * x <= rnd x.
Proof.
  intros Hx. destruct Hacc as [H _]. specialize (H x).
  rewrite (Rabs_pos_eq x Hx) in H. apply Rabs_le_inv in H. lra.
Qed.

Lemma fsum_nonneg (l : list R) :
  (forall r, In r l -> 0 <= r) -> Rsum l / 2 <= fsum l.
Proof.
  intros Hl. destruct Hacc as [_ H]. specialize (H l Hl).
  apply Rabs_le_inv in H. lra.
Qed.

Lemma fsum_zeros (n : nat) : fsum (repeat 0 n) = 0.
Proof.
  destruct Hacc as [_ H]. specialize (H (repeat 0 n)).
  rewrite Rsum_repeat in H. rewrite Rmult_0_r in H.
  assert (H0 : Rabs (fsum (repeat 0 n) - 0) <= 0 / 2).
  { apply H. intros r Hr. apply repeat_spec in Hr. lra. }
  rewrite Rminus_0_r in H0. unfold Rdiv in H0. rewrite Rmult_0_l in H0.
  destruct (Req_dec (fsum (repeat 0 n)) 0) as [E|E]; [exact E|].
  pose proof (Rabs_pos_lt _ E). lra.
Qed.

(** The computation of lines 65-66 on equal samples, step by step: [e] is
    the deviation inside the standard deviation, [q] its square, [v] the
    variance, [s] the standard deviation and [d] the deviation of the
    z-score. *)
Lemma constant_zscore_bound (m c : R) (n : nat) :
  (1 <= n)%nat ->
  let e := rnd (m - c) in
  let q := rnd (e * e) in
  let v := rnd (fsum (repeat q n) / INR n) in
  let s := rnd (R_sqrt.sqrt v) in
  let d := rnd (c - m) in
  0 <= v /\ 0 <= s /\
  (s = 0 -> d = 0) /\
  (s <> 0 -> Rabs (rnd (d / s)) <= 3).
Proof.
  intros Hn e q v s d.
  assert (HN : 1 <= INR n) by (change 1 with (INR 1); apply le_INR; exact Hn).
  pose proof (rnd_abs (m - c)) as [He1 He2]. fold e in He1, He2.
  pose proof (rnd_abs (c - m)) as [_ Hd]. fold d in Hd.
  rewrite (Rabs_minus_sym c m) in Hd.
  set (M := Rabs (m - c)) in *. set (E := Rabs e) in *. set (D := Rabs d) in *.
  assert (HM : 0 <= M) by apply Rabs_pos.
  assert (HE : 0 <= E) by apply Rabs_pos.
  assert (HD : 0 <= D) by apply Rabs_pos.
  assert (Hee : e * e = E * E).
  { unfold E, Rabs. destruct (Rcase_abs e); ring. }
  assert (Hq : 15 / 16 * (E * E) <= q).
  { rewrite <- Hee. apply rnd_nonneg. rewrite Hee. nra. }
  assert (Hq0 : 0 <= q) by nra.
  assert (HQ : INR n * q / 2 <= fsum (repeat q n)).
  { rewrite <- Rsum_repeat. apply fsum_nonneg.
    intros r Hr. apply repeat_spec in Hr. lra. }
  set (Q := fsum (repeat q n)) in *.
  assert (Hmean : q / 2 <= Q / INR n).
  { apply Rmult_le_reg_r with (INR n); [lra|].
    replace (Q / INR n * INR n) with Q by (field; lra). lra. }
  assert (Hv : 15 / 16 * (Q / INR n) <= v).
  { apply rnd_nonneg. lra. }
  assert (Hv0 : 0 <= v) by lra.
  pose proof (sqrt_pos v) as Ht0.
  pose proof (sqrt_sqrt v Hv0) as Htt.
  set (t := R_sqrt.sqrt v) in *.
  assert (Hs : 15 / 16 * t <= s) by (apply rnd_nonneg; exact Ht0).
  assert (HtE : 13 / 20 * E <= t).
  { destruct (Rle_lt_dec (13 / 20 * E) t) as [H|H]; [exact H|].
    exfalso. assert (t * t < 13 / 20 * E * (13 / 20 * E)) by nra. nra. }
  split; [exact Hv0|]. split; [lra|]. split.
  - intros Hs0. assert (Et : E <= 0) by lra.
    assert (EM : M <= 0) by lra.
    assert (D0 : D <= 0) by lra.
    destruct (Req_dec d 0) as [E0|E0]; [exact E0|].
    pose proof (Rabs_pos_lt _ E0). fold D in H. lra.
  - intros Hs0. assert (Hsp : 0 < s) by lra.
    pose proof (rnd_abs (d / s)) as [_ Hz].
    assert (Hds : Rabs (d / s) = D / s).
    { unfold Rdiv. rewrite Rabs_mult, (Rabs_pos_eq (/ s)); [reflexivity|].
      left. apply Rinv_0_lt_compat. exact Hsp. }
    rewrite Hds in Hz.
    assert (Hb : 17 / 16 * (D / s) <= 3).
    { apply Rmult_le_reg_r with s; [exact Hsp|].
      replace (17 / 16 * (D / s) * s) with (17 / 16 * D) by (field; lra).
      nra. }
    lra.
Qed.

Lemma squares_of_constant (m c : R) (xs : list float) :
  (forall x, In x xs -> x = NaN \/ x = Fin c) ->
  let g := fun x => Rounded.mul rnd (Rounded.sub rnd (Fin m) x)
                                    (Rounded.sub rnd (Fin m) x) in
  forallb fin_or_nan (map g xs) = true /\
  reals (map g xs)
  = repeat (rnd (rnd (m - c) * rnd (m - c))) (length (reals xs)).
Proof.
  intros H g. induction xs as [|x xs IH]; [split; reflexivity|].
  destruct IH as [IH1 IH2].
  { intros y Hy. apply H. right. exact Hy. }
  destruct (H x (or_introl eq_refl)) as [-> | ->].
  - cbn [map forallb reals]. change (g NaN) with NaN.
    cbn [fin_or_nan andb]. split; assumption.
  - cbn [map forallb reals length repeat].
    change (g (Fin c)) with (Fin (rnd (rnd (m - c) * rnd (m - c)))).
    cbn [fin_or_nan andb]. rewrite IH2. split; [exact IH1 | reflexivity].
Qed.

(** Mean and standard deviation of a series whose present values are all
    [c], when there is one. *)
Lemma constant_stats (xs : list float) (c : R) :
  (forall x, In x xs -> x = NaN \/ x = Fin c) ->
  reals xs <> [] ->
  let n := length (reals xs) in
  let m := rnd (fsum (reals xs) / INR n) in
  let q := rnd (rnd (m - c) * rnd (m - c)) in
  let v := rnd (fsum (repeat q n) / INR n) in
  Rounded.mean rnd fsum xs = Fin m /\
  Rounded.std0 rnd fsum xs = Fin (rnd (R_sqrt.sqrt v)).
Proof.
  intros H Hne. cbv zeta.
  pose proof (forallb_fin_or_nan_const xs c H) as Hf.
  pose proof (INR_length_pos _ _ Hne) as Hn.
  pose proof (count_reals xs Hf) as Hc.
  destruct (squares_of_constant
              (rnd (fsum (reals xs) / INR (length (reals xs)))) c xs H)
    as [Hsf Hsr].
  cbv zeta in Hsf, Hsr.
  assert (Hn1 : (1 <= length (reals xs))%nat).
  { destruct (reals xs); [contradiction | cbn; lia]. }
  destruct (constant_zscore_bound
              (rnd (fsum (reals xs) / INR (length (reals xs)))) c
              (length (reals xs)) Hn1) as (Hv0 & _).
  cbv zeta in Hv0.
  assert (Hsum : Rounded.nansum fsum xs = Fin (fsum (reals xs))).
  { unfold Rounded.nansum. rewrite Hf. reflexivity. }
  unfold Rounded.mean, Rounded.std0. cbv zeta.
  rewrite Hsum, Hc.
  set (n := length (reals xs)) in *.
  assert (Hnz : Reqb (INR n) 0 = false) by (apply Reqb_false; lra).
  assert (Hdiv : forall a, Rounded.div rnd (Fin a) (of_nat n)
                           = Fin (rnd (a / INR n))).
  { intros a. unfold of_nat. cbn [Rounded.div]. rewrite Hnz. reflexivity. }
  rewrite !Hdiv. unfold Rounded.nansum. rewrite Hsf, Hsr, Hdiv.
  destruct n as [|k] eqn:En; [lia|]. rewrite <- En in *.
  split; [reflexivity|].
  cbn [Rounded.sqrt]. rewrite (proj2 (Rltb_false _ 0) Hv0). reflexivity.
Qed.

End RoundedConstant.

Section RoundedZScore.

Import NP Pandas Plotter.
Open Scope R_scope.

Lemma exact_accurate : Rounded.accurate Rounded.exact Rsum.
Proof.
  split.
  - intros x. unfold Rounded.exact. rewrite Rminus_diag, Rabs_R0.
    pose proof (Rabs_pos x). lra.
  - intros l Hl. rewrite Rminus_diag, Rabs_R0.
    assert (0 <= Rsum l); [|lra].
    induction l as [|r l IH]; cbn [Rsum]; [lra|].
    pose proof (Hl r (or_introl eq_refl)).
    assert (0 <= Rsum l); [|lra].
    apply IH. intros r' Hr'. apply Hl. right. exact Hr'.
Qed.

Lemma sum_high_accurate : Rounded.accurate Rounded.exact Rounded.sum_high.
Proof.
  split; [apply exact_accurate|].
  intros l Hl. unfold Rounded.sum_high.
  assert (H0 : 0 <= Rsum l).
  { induction l as [|r l IH]; cbn [Rsum]; [lra|].
    pose proof (Hl r (or_introl eq_refl)).
    assert (0 <= Rsum l); [|lra].
    apply IH. intros r' Hr'. apply Hl. right. exact Hr'. }
  replace (Rsum l * (5 / 4) - Rsum l) with (Rsum l / 4) by field.
  rewrite Rabs_pos_eq by lra. lra.
Qed.

(** Without rounding, the stage is the one of [Plotter]. *)
Lemma rounded_exact (xs : list float) :
  Rounded.zscore_filter Rounded.exact Rsum xs = zscore_filter xs.
Proof.
  assert (Hsub : forall x y, Rounded.sub Rounded.exact x y = sub x y).
  { intros [a| | |] [b| | |]; reflexivity. }
  assert (Hmul : forall x y, Rounded.mul Rounded.exact x y = mul x y).
  { intros [a| | |] [b| | |]; reflexivity. }
  assert (Hdiv : forall x y, Rounded.div Rounded.exact x y = div x y).
  { intros [a| | |] [b| | |]; reflexivity. }
  assert (Hsqrt : forall x, Rounded.sqrt Rounded.exact x = sqrt x).
  { intros [a| | |]; reflexivity. }
  assert (Hsum : forall ys, Rounded.nansum Rsum ys = nansum ys).
  { intros ys. unfold Rounded.nansum.
    destruct (forallb fin_or_nan ys) eqn:E; [|reflexivity].
    symmetry. apply nansum_reals. exact E. }
  assert (Hmean : Rounded.mean Rounded.exact Rsum xs = mean xs).
  { unfold Rounded.mean, mean. rewrite Hsum, Hdiv. reflexivity. }
  assert (Hstd : Rounded.std0 Rounded.exact Rsum xs = std0 xs).
  { unfold Rounded.std0, std0. cbv zeta. rewrite !Hsum, Hdiv.
    destruct (count xs); [reflexivity|].
    rewrite Hsqrt, Hdiv. do 2 f_equal.
    transitivity (nansum (map (fun x => mul (sub (div (nansum xs)
                                  (of_nat (S n))) x)
                                  (sub (div (nansum xs) (of_nat (S n))) x)) xs)).
    - f_equal. apply map_ext. intros x. rewrite Hmul, !Hsub. reflexivity.
    - reflexivity. }
  unfold Rounded.zscore_filter, zscore_filter, Rounded.z_scores, z_scores.
  cbv zeta. rewrite Hmean, Hstd. do 2 f_equal.
  apply map_ext. intros x. rewrite Hdiv, Hsub. reflexivity.
Qed.



End RoundedZScore.

Section SpikeFilled.

Import NP Pandas Plotter.
Open Scope R_scope.

Lemma interp_after_valid (xs : list float) :
  Forall valid xs -> forall y0 d, interp_after y0 d xs = xs.
Proof.
  induction 1 as [|x xs Hx _ IH]; intros y0 d; [reflexivity|].
  cbn [interp_after]. rewrite Hx, IH. reflexivity.
Qed.

Lemma gap_fill_valid (xs : list float) : Forall valid xs -> gap_fill xs = xs.
Proof.
  intros H. unfold gap_fill, ffill.
  assert (E : interpolate xs = xs).
  { destruct H as [|x xs Hx Hxs]; [reflexivity|].
    cbn [interpolate]. rewrite Hx, interp_after_valid by exact Hxs.
    reflexivity. }
  rewrite E. rewrite <- (app_nil_r xs) at 1.
  rewrite bfill_valid_app by exact H. cbn [bfill]. rewrite app_nil_r.
  apply ffill_from_valid. exact H.
Qed.

(** A constant series with one missing value is filled with the
    constant. *)
Lemma gap_fill_hole (b a : nat) (c : R) :
  (1 <= b + a)%nat ->
  gap_fill (repeat (Fin c) b ++ NaN :: repeat (Fin c) a)
  = repeat (Fin c) (b + 1 + a).
Proof.
  intros Hn.
  assert (Hv : forall k, Forall valid (repeat (Fin c) k)).
  { intros k. apply Forall_valid_repeat. reflexivity. }
  assert (Hv1 : forall k, Forall valid (repeat (Fin c) k ++ [Fin c])).
  { intros k. apply Forall_app. split; [apply Hv|]. repeat constructor. }
  rewrite !repeat_app. cbn [repeat app].
  destruct b as [|b].
  - destruct a as [|a]; [lia|]. cbn [repeat app].
    change (NaN :: Fin c :: repeat (Fin c) a)
      with (repeat NaN 1 ++ Fin c :: repeat (Fin c) a).
    rewrite gap_fill_leading.
    rewrite (gap_fill_valid (Fin c :: repeat (Fin c) a)) by apply (Hv (S a)).
    reflexivity.
  - cbn [repeat]. rewrite repeat_cons.
    set (l := repeat (Fin c) b) in *.
    rewrite <- (app_assoc l [Fin c] (NaN :: _)). cbn [app].
    destruct a as [|a].
    + change (Fin c :: NaN :: repeat (Fin c) 0)
        with (Fin c :: repeat NaN 1).
      rewrite gap_fill_trailing, gap_fill_valid by apply Hv1.
      rewrite app_nil_r. reflexivity.
    + change (Fin c :: NaN :: repeat (Fin c) (S a))
        with (Fin c :: repeat NaN 1 ++ Fin c :: repeat (Fin c) a).
      rewrite gap_fill_interior, gap_fill_valid by apply Hv1.
      rewrite (gap_fill_valid (Fin c :: repeat (Fin c) a)) by apply (Hv (S a)).
      rewrite <- (app_assoc (l ++ [Fin c]) [Fin c]). f_equal.
      cbn [app ramp seq map Nat.add INR repeat].
      repeat f_equal. lra.
Qed.

(** C4, as stated, fails: in the series [10, 10, 10000, 10, 10] the
    standardized deviation of the injected value is 2, and the rejection
    leaves the series as it is. *)
Lemma C4_counterexample :
  zscore_filter (spiked 2 2 10 10000)
  = [Fin 10; Fin 10; Fin 10000; Fin 10; Fin 10].
Proof.
  rewrite zscore_filter_spiked by lra. reflexivity.
Qed.

(** C4, amended (outlier rejection).  In a series that is the constant 10
    with one injected value 10000 at any position, the rejection masks the
    injected value exactly when the series has at least eleven samples, and
    it never masks another sample: with ten samples the standardized
    deviation of the injected value is 3, which does not exceed the
    threshold, and with eleven it is the square root of 10.  When the value
    is masked, gap filling puts 10, the value of its neighbours, in its
    place; otherwise the series goes through both stages unchanged. *)
Theorem C4_spike_masked_from_eleven_samples :
  forall before after : nat,
    zscore_filter (spiked before after 10 10000)
    = (if (10 <=? before + after)%nat
       then repeat (Fin 10) before ++ NaN :: repeat (Fin 10) after
       else spiked before after 10 10000) /\
    gap_fill (zscore_filter (spiked before after 10 10000))
    = (if (10 <=? before + after)%nat
       then repeat (Fin 10) (before + 1 + after)
       else spiked before after 10 10000).
Proof.
  intros b a.
  assert (E : zscore_filter (spiked b a 10 10000)
              = if (10 <=? b + a)%nat
                then repeat (Fin 10) b ++ NaN :: repeat (Fin 10) a
                else spiked b a 10 10000).
  { rewrite zscore_filter_spiked by lra.
    destruct (10 <=? b + a)%nat; reflexivity. }
  split; [exact E|]. rewrite E.
  destruct (10 <=? b + a)%nat eqn:Hn.
  - apply Nat.leb_le in Hn. apply gap_fill_hole. lia.
  - apply gap_fill_valid. unfold spiked. apply Forall_app. split.
    + apply Forall_valid_repeat. reflexivity.
    + constructor; [reflexivity|]. apply Forall_valid_repeat. reflexivity.
Qed.

End SpikeFilled.

(** ** The cleaning loop *)

Section SeriesShape.

Import NP Pandas Plotter.
Open Scope nat_scope.

Lemma map_fst_combine (A B : Type) (l1 : list A) (l2 : list B) :
  length l1 = length l2 -> map fst (combine l1 l2) = l1.
Proof.
  revert l2. induction l1 as [|x l1 IH]; intros [|y l2] H;
    try discriminate; [reflexivity|].
  cbn. rewrite IH by (cbn in H; lia). reflexivity.
Qed.

Lemma map_snd_combine (A B : Type) (l1 : list A) (l2 : list B) :
  length l1 = length l2 -> map snd (combine l1 l2) = l2.
Proof.
  revert l2. induction l1 as [|x l1 IH]; intros [|y l2] H;
    try discriminate; [reflexivity|].
  cbn. rewrite IH by (cbn in H; lia). reflexivity.
Qed.

Lemma with_values_shape (f : list float -> list float) (s : Series) :
  length (f (values s)) = length s ->
  index (with_values f s) = index s /\
  values (with_values f s) = f (values s).
Proof.
  intros H. unfold with_values, index, values.
  split; [apply map_fst_combine | apply map_snd_combine];
    rewrite length_map; symmetry; exact H.
Qed.

Lemma select_map (A B : Type) (f : A -> B) (g : A -> bool) (l : list A) :
  select (map f l) (map g l) = map f (filter g l).
Proof.
  induction l as [|x l IH]; [reflexivity|].
  cbn. destruct (g x); cbn; rewrite IH; reflexivity.
Qed.

(** Lines 57-62: the series that enters the cleaning is the column
    restricted to the rows the pre-filter keeps. *)
Lemma prefilter_rows (df : DataFrame) (metric : column) :
  (if is_centroid metric
   then select (getcol df metric) (centroid_mask df)
   else getcol df metric)
  = getcol (filter (fun tr => negb (excluded metric (snd tr))) df) metric.
Proof.
  unfold excluded. destruct (is_centroid metric); cbn [andb].
  - unfold getcol, centroid_mask. apply select_map.
  - cbn [negb]. f_equal. induction df as [|tr df IH]; [reflexivity|].
    cbn. rewrite <- IH. reflexivity.
Qed.

Lemma length_mask (xs : list float) (cond : list bool) :
  length cond = length xs -> length (mask xs cond) = length xs.
Proof.
  revert cond. induction xs as [|x xs IH]; intros [|c cond] H;
    try discriminate; [reflexivity|].
  cbn. rewrite IH by (cbn in H; lia). reflexivity.
Qed.

Lemma length_zscore_filter (xs : list float) :
  length (zscore_filter xs) = length xs.
Proof.
  unfold zscore_filter, z_scores. apply length_mask.
  rewrite !length_map. reflexivity.
Qed.

Lemma length_interp_after (xs : list float) :
  forall y0 d, length (interp_after y0 d xs) = length xs.
Proof.
  induction xs as [|x xs IH]; intros y0 d; [reflexivity|].
  cbn [interp_after]. destruct (isnan x); cbn [length]; rewrite IH;
    reflexivity.
Qed.

Lemma length_interpolate (xs : list float) :
  length (interpolate xs) = length xs.
Proof.
  induction xs as [|x xs IH]; [reflexivity|].
  cbn [interpolate]. destruct (isnan x); cbn [length];
    [rewrite IH | rewrite length_interp_after]; reflexivity.
Qed.

Lemma length_bfill (xs : list float) : length (bfill xs) = length xs.
Proof.
  induction xs as [|x xs IH]; [reflexivity|]. cbn. rewrite IH. reflexivity.
Qed.

Lemma length_ffill_from (xs : list float) :
  forall last, length (ffill_from last xs) = length xs.
Proof.
  induction xs as [|x xs IH]; intros last; [reflexivity|].
  cbn [ffill_from]. destruct (isnan x); cbn [length]; rewrite IH;
    reflexivity.
Qed.

Lemma length_gap_fill (xs : list float) : length (gap_fill xs) = length xs.
Proof.
  unfold gap_fill, ffill.
  rewrite length_ffill_from, length_bfill, length_interpolate. reflexivity.
Qed.

Lemma length_rolling_mean (w : nat) (xs : list float) :
  length (rolling_mean w xs) = length xs.
Proof. unfold rolling_mean. rewrite length_map, length_seq. reflexivity. Qed.

End SeriesShape.

Section Finiteness.

Import NP Pandas Plotter.
Open Scope R_scope.

Lemma isfinite_fin_or_nan (xs : list float) :
  forallb isfinite xs = true -> forallb fin_or_nan xs = true.
Proof.
  rewrite !forallb_forall. intros H x Hx. specialize (H x Hx).
  destruct x; try discriminate; reflexivity.
Qed.

Lemma isfinite_valid (xs : list float) :
  forallb isfinite xs = true -> Forall valid xs.
Proof.
  rewrite forallb_forall, Forall_forall. intros H x Hx. specialize (H x Hx).
  destruct x; try discriminate; reflexivity.
Qed.

Lemma forallb_firstn (A : Type) (p : A -> bool) (l : list A) :
  forallb p l = true -> forall k, forallb p (firstn k l) = true.
Proof.
  induction l as [|x l IH]; intros H [|k]; try reflexivity.
  cbn in *. apply andb_prop in H. destruct H as [Hx Hl].
  rewrite Hx, (IH Hl). reflexivity.
Qed.

Lemma forallb_skipn (A : Type) (p : A -> bool) (l : list A) :
  forallb p l = true -> forall k, forallb p (skipn k l) = true.
Proof.
  induction l as [|x l IH]; intros H [|k]; try reflexivity; [exact H|].
  cbn in *. apply andb_prop in H. destruct H as [_ Hl]. exact (IH Hl k).
Qed.

Lemma reals_of_finite (xs : list float) :
  forallb isfinite xs = true -> length (reals xs) = length xs.
Proof.
  induction xs as [|x xs IH]; [reflexivity|]. cbn [forallb]. intros H.
  apply andb_prop in H. destruct H as [Hx Hxs].
  destruct x; try discriminate. cbn. rewrite (IH Hxs). reflexivity.
Qed.

Lemma mean_finite (xs : list float) :
  forallb isfinite xs = true -> xs <> [] -> isfinite (mean xs) = true.
Proof.
  intros H Hne. rewrite mean_reals; [reflexivity | | ].
  - apply isfinite_fin_or_nan. exact H.
  - intros E. apply (f_equal (@length R)) in E.
    rewrite (reals_of_finite xs H) in E. destruct xs; [contradiction|].
    discriminate.
Qed.

(** The window of every position holds the position itself, so the rolling
    mean of finite values is finite. *)
Lemma rolling_mean_finite (w : nat) (xs : list float) :
  (1 <= w)%nat -> forallb isfinite xs = true ->
  forallb isfinite (rolling_mean w xs) = true.
Proof.
  intros Hw H. unfold rolling_mean. apply forallb_forall. intros y Hy.
  apply in_map_iff in Hy. destruct Hy as (i & <- & Hi).
  apply in_seq in Hi. cbn [Nat.add] in Hi.
  apply mean_finite.
  - apply forallb_firstn, forallb_skipn. exact H.
  - intros E. apply (f_equal (@length float)) in E.
    rewrite length_firstn, length_skipn in E. cbn [length] in E.
    assert (Hoff : ((w - 1) / 2 <= w - 1)%nat).
    { apply Nat.Div0.div_le_upper_bound. lia. }
    set (offset := ((w - 1) / 2)%nat) in *. lia.
Qed.

Lemma next_valid_fin (xs : list float) :
  forallb fin_or_nan xs = true ->
  forall k y, next_valid xs = Some (k, y) -> exists b, y = Fin b.
Proof.
  induction xs as [|x xs IH]; cbn [forallb next_valid]; intros H k y E.
  - discriminate.
  - apply andb_prop in H. destruct H as [Hx Hxs].
    destruct x as [r| | |]; try discriminate; cbn [isnan] in E.
    + injection E as _ <-. exists r. reflexivity.
    + destruct (next_valid xs) as [[k' y']|] eqn:En; [|discriminate].
      injection E as _ <-. exact (IH Hxs k' y' eq_refl).
Qed.

Lemma interp_after_finite (xs : list float) :
  forallb fin_or_nan xs = true ->
  forall a d, forallb isfinite (interp_after (Fin a) d xs) = true.
Proof.
  induction xs as [|x xs IH]; intros H a d; [reflexivity|].
  cbn [forallb] in H. apply andb_prop in H. destruct H as [Hx Hxs].
  cbn [interp_after].
  destruct x as [r| | |]; try discriminate; cbn [isnan forallb].
  - rewrite (IH Hxs). reflexivity.
  - rewrite (IH Hxs), andb_true_r.
    destruct (next_valid xs) as [[k y]|] eqn:En; [|reflexivity].
    destruct (next_valid_fin xs Hxs k y En) as [b ->].
    unfold sub, of_nat. cbn [neg add].
    rewrite div_fin by (apply not_0_INR; lia). reflexivity.
Qed.

Lemma leading_nans (xs : list float) :
  forallb fin_or_nan xs = true -> existsb isfinite xs = true ->
  exists k a t, xs = repeat NaN k ++ Fin a :: t.
Proof.
  induction xs as [|x xs IH]; cbn [forallb existsb]; intros H E.
  - discriminate.
  - apply andb_prop in H. destruct H as [Hx Hxs].
    destruct x as [r| | |]; try discriminate.
    + exists 0%nat, r, xs. reflexivity.
    + cbn [isfinite orb] in E. destruct (IH Hxs E) as (k & a & t & ->).
      exists (S k), a, t. reflexivity.
Qed.

(** Lines 69-70 leave no missing value, provided one value is present and
    none is infinite. *)
Lemma gap_fill_finite (xs : list float) :
  forallb fin_or_nan xs = true -> existsb isfinite xs = true ->
  forallb isfinite (gap_fill xs) = true.
Proof.
  intros H E. destruct (leading_nans xs H E) as (k & a & t & ->).
  assert (Ht : forallb fin_or_nan t = true).
  { rewrite forallb_app in H. apply andb_prop in H. destruct H as [_ H].
    cbn [forallb] in H. apply andb_prop in H. tauto. }
  pose proof (interp_after_finite t Ht a 1) as Hi.
  pose proof (isfinite_valid _ Hi) as Hv.
  rewrite gap_fill_leading, gap_fill_head by reflexivity.
  rewrite <- (app_nil_r (interp_after (Fin a) 1 t)).
  rewrite bfill_valid_app by exact Hv. cbn [bfill]. rewrite app_nil_r.
  rewrite ffill_from_valid by exact Hv.
  rewrite forallb_app. cbn [forallb isfinite]. rewrite Hi, andb_true_r.
  apply forallb_forall. intros x Hx. apply repeat_spec in Hx. subst.
  reflexivity.
Qed.

Lemma Rsum_lower (f : R -> R) (c : R) (l : list R) :
  (forall r, In r l -> c < f r) -> INR (length l) * c <= Rsum (map f l).
Proof.
  induction l as [|x l IH]; intros H.
  - cbn. lra.
  - cbn [length map Rsum]. rewrite S_INR.
    pose proof (H x (or_introl eq_refl)).
    pose proof (IH (fun r Hr => H r (or_intror Hr))). lra.
Qed.

Lemma Rsum_lower_strict (f : R -> R) (c : R) (l : list R) :
  l <> [] -> (forall r, In r l -> c < f r) ->
  INR (length l) * c < Rsum (map f l).
Proof.
  intros Hne H. destruct l as [|x l]; [contradiction|].
  cbn [length map Rsum]. rewrite S_INR.
  pose proof (H x (or_introl eq_refl)).
  pose proof (Rsum_lower f c l (fun r Hr => H r (or_intror Hr))). lra.
Qed.

Lemma forallb_false_exists (A : Type) (p : A -> bool) (l : list A) :
  forallb p l = false -> exists x, In x l /\ p x = false.
Proof.
  induction l as [|x l IH]; cbn [forallb]; intros H; [discriminate|].
  destruct (p x) eqn:E.
  - destruct (IH H) as (y & Hy & Ey). exists y. split; [right|]; assumption.
  - exists x. split; [left; reflexivity | exact E].
Qed.

(** The z-score test cannot reject every number: the squared deviations
    average to the variance. *)
Lemma exists_unmasked (l : list R) :
  l <> [] ->
  exists r, In r l /\
            Rltb (9 * Rvar l) ((r - Rmean l) * (r - Rmean l)) = false.
Proof.
  intros Hne.
  destruct (forallb (fun r => Rltb (9 * Rvar l)
                                   ((r - Rmean l) * (r - Rmean l))) l) eqn:E.
  - exfalso. rewrite forallb_forall in E.
    pose proof (INR_length_pos _ l Hne) as Hn.
    pose proof (Rvar_nonneg l Hne) as Hv.
    assert (Hsum : Rsum (map (fun r => (Rmean l - r) * (Rmean l - r)) l)
                   = INR (length l) * Rvar l).
    { unfold Rvar. field. lra. }
    set (m := Rmean l) in *. set (v := Rvar l) in *.
    assert (Hall : forall r, In r l -> 9 * v < (m - r) * (m - r)).
    { intros r Hr. specialize (E r Hr). apply Rltb_true in E.
      replace ((m - r) * (m - r)) with ((r - m) * (r - m)) by ring.
      exact E. }
    pose proof (Rsum_lower_strict (fun r => (m - r) * (m - r)) (9 * v) l
                  Hne Hall) as Hlow.
    rewrite Hsum in Hlow. nra.
  - apply forallb_false_exists in E. exact E.
Qed.

(** Lines 65-66 on a non-empty list of numbers: the result still has a
    number, and no infinity. *)
Lemma zscore_filter_keeps_one (xs : list float) :
  forallb isfinite xs = true -> xs <> [] ->
  forallb fin_or_nan (zscore_filter xs) = true /\
  existsb isfinite (zscore_filter xs) = true.
Proof.
  intros H Hne. pose proof (isfinite_fin_or_nan xs H) as Hf.
  rewrite (zscore_filter_spec xs Hf). split.
  - apply forallb_forall. intros y Hy. apply in_map_iff in Hy.
    destruct Hy as (x & <- & Hx). rewrite forallb_forall in Hf.
    specialize (Hf x Hx). destruct x; try discriminate; cbn [zmask];
      [|reflexivity].
    destruct (Rltb _ _); reflexivity.
  - assert (Hr : reals xs <> []).
    { intros E. apply (f_equal (@length R)) in E.
      rewrite (reals_of_finite xs H) in E. destruct xs; [contradiction|].
      discriminate. }
    destruct (exists_unmasked (reals xs) Hr) as (r & Hin & Er).
    apply existsb_exists. exists (Fin r). split; [|reflexivity].
    apply in_map_iff. exists (Fin r). split; [|apply reals_in; exact Hin].
    cbn [zmask]. rewrite Er. reflexivity.
Qed.

End Finiteness.

Section Smoothing.

Import NP Pandas Plotter.
Open Scope Z_scope.

(** Lines 74-78 for a series that is not of length 2 or 4: the window is
    at least 1 and at most the length, and the order is below the
    window. *)
Lemma choose_window_fits (n : Z) :
  1 <= n -> n <> 2 -> n <> 4 ->
  1 <= choose_window n <= n /\
  0 <= choose_polyorder (choose_window n) < choose_window n.
Proof.
  intros H1 H2 H4. destruct (Z_lt_le_dec n 5) as [Hs|Hl].
  - assert (E : n = 1 \/ n = 3) by lia.
    destruct E as [-> | ->]; cbn; lia.
  - unfold choose_window, choose_polyorder, window_length, poly_order.
    assert (Hw : 5 <= (if n mod 2 =? 1 then n else n - 1) <= n).
    { destruct (n mod 2 =? 1) eqn:E; [lia|].
      apply Z.eqb_neq in E. pose proof (Z.mod_pos_bound n 2 ltac:(lia)).
      pose proof (Z.div_mod n 2 ltac:(lia)). lia. }
    set (m := if n mod 2 =? 1 then n else n - 1) in *.
    destruct (Z.min 10 m <? 5) eqn:E.
    + apply Z.ltb_lt in E. lia.
    + lia.
Qed.

Lemma savgol_interp_contract : savgol_contract savgol_interp.
Proof.
  intros x w p. unfold savgol_interp. split.
  - intros H. rewrite (proj2 (Z.leb_gt w _) H), andb_false_r. reflexivity.
  - intros Hw Hp Hx. exists x.
    rewrite (proj2 (Z.leb_le 1 w)), (proj2 (Z.leb_le w _)),
      (proj2 (Z.leb_le 0 p)), (proj2 (Z.ltb_lt p w)) by lia.
    auto.
Qed.

(** From eleven points on, the window is the configured length. *)
Lemma choose_window_long (n : Z) : 11 <= n -> choose_window n = 10.
Proof.
  intros H. unfold choose_window, window_length.
  assert (Hm : 10 <= (if n mod 2 =? 1 then n else n - 1)).
  { destruct (n mod 2 =? 1); lia. }
  rewrite Z.min_l by exact Hm. reflexivity.
Qed.

(** A series of two or of four points gets a window longer than itself,
    which a filter meeting the contract refuses. *)
Lemma smooth_short_series_raises
    (savgol_filter : list float -> Z -> Z -> result (list float))
    (s : Series) :
  savgol_contract savgol_filter ->
  length s = 2%nat \/ length s = 4%nat ->
  smooth savgol_filter s = Raise ValueError.
Proof.
  intros Hsg Hlen. unfold smooth. cbv zeta.
  destruct (Hsg (values s) (choose_window (Z.of_nat (length s)))
              (choose_polyorder (choose_window (Z.of_nat (length s)))))
    as [Hraise _].
  rewrite Hraise; [reflexivity|].
  unfold values. rewrite length_map.
  destruct Hlen as [-> | ->]; cbn; lia.
Qed.

(** C3 (window selection).  The window chosen for a series of eleven
    points is the configured length 10, an even number; the windows chosen
    for series of two and of four points are 3 and 5, longer than the
    series, and smoothing a series of two points ends in [ValueError]. *)
Theorem C3_window_even_or_too_long :
  choose_window 11 = 10 /\ Z.even (choose_window 11) = true /\
  choose_window 2 = 3 /\ choose_window 4 = 5 /\
  smooth savgol_interp [(0, Fin 1); (1, Fin 2)] = Raise ValueError.
Proof.
  split; [reflexivity|]. split; [reflexivity|].
  split; [reflexivity|]. split; [reflexivity|].
  apply smooth_short_series_raises; [|left; reflexivity].
  exact savgol_interp_contract.
Qed.

Lemma make_series_ok (vals : list float) (idx : list Z) :
  length vals = length idx -> make_series vals idx = Ok (combine idx vals).
Proof.
  intros H. unfold make_series. rewrite H, Nat.eqb_refl. reflexivity.
Qed.

(** Lines 72-89 on a gap-filled series of finite values. *)
Lemma smooth_finite
    (savgol_filter : list float -> Z -> Z -> result (list float))
    (s : Series) :
  savgol_contract savgol_filter ->
  forallb isfinite (values s) = true ->
  1 <= Z.of_nat (length s) ->
  Z.of_nat (length s) <> 2 -> Z.of_nat (length s) <> 4 ->
  exists vals,
    smooth savgol_filter s = Ok (combine (index s) vals) /\
    length vals = length s /\
    forallb isfinite vals = true.
Proof.
  intros Hsg Hfin H1 H2 H4. unfold smooth. cbv zeta.
  destruct (choose_window_fits _ H1 H2 H4) as [Hw Hp].
  assert (Hlv : length (values s) = length s) by apply length_map.
  assert (Hli : length (index s) = length s) by apply length_map.
  destruct (Hsg (values s) (choose_window (Z.of_nat (length s)))
              (choose_polyorder (choose_window (Z.of_nat (length s)))))
    as [_ Hok].
  destruct Hok as (y & Ey & Hy & Hyf); [rewrite Hlv; exact Hw | exact Hp |
                                        exact Hfin |].
  rewrite Ey. cbn [bind].
  change (negb (APPLY_ROLLING =? 0) && (2 <=? ROLLING_WINDOW)) with true.
  cbv iota.
  rewrite make_series_ok by congruence. cbn [bind].
  change (Z.to_nat ROLLING_WINDOW) with 50%nat.
  assert (Hs : length (rolling_mean 50 (values (combine (index s) y)))
               = length (combine (index s) y)).
  { rewrite length_rolling_mean. apply length_map. }
  destruct (with_values_shape (rolling_mean 50) (combine (index s) y) Hs)
    as [_ Ev].
  rewrite Ev. unfold values at 1.
  rewrite map_snd_combine by congruence.
  rewrite make_series_ok by (rewrite length_rolling_mean; congruence).
  exists (rolling_mean 50 y). split; [reflexivity|].
  split; [rewrite length_rolling_mean; congruence|].
  apply rolling_mean_finite; [lia | exact Hyf].
Qed.

Lemma lookup_not_in (t : Z) (s : Series) :
  ~ In t (index s) -> lookup t s = NaN.
Proof.
  induction s as [|[t' v] s IH]; intros H; [reflexivity|].
  cbn [lookup]. destruct (Z.eqb t t') eqn:E.
  - apply Z.eqb_eq in E. exfalso. apply H. left. cbn. congruence.
  - apply IH. intros Hin. apply H. right. exact Hin.
Qed.

Lemma lookup_in_finite (t : Z) (s : Series) :
  In t (index s) -> forallb isfinite (values s) = true ->
  isfinite (lookup t s) = true.
Proof.
  induction s as [|[t' v] s IH]; intros H Hf; [destruct H|].
  cbn [values map forallb snd] in Hf. apply andb_prop in Hf.
  destruct Hf as [Hv Hs]. cbn [lookup]. destruct (Z.eqb t t') eqn:E.
  - exact Hv.
  - apply IH; [|exact Hs]. destruct H as [H|H]; [|exact H].
    apply Z.eqb_neq in E. cbn in H. congruence.
Qed.

Lemma index_relabel (s : Series) (labels : list Z) :
  index (relabel s labels) = labels.
Proof.
  unfold index, relabel. rewrite map_map. cbn [fst]. apply map_id.
Qed.

Lemma is_unique_NoDup (labels : list Z) :
  is_unique labels = true <-> NoDup labels.
Proof.
  induction labels as [|t labels IH]; cbn [is_unique].
  - split; [constructor | reflexivity].
  - rewrite andb_true_iff, negb_true_iff, IH. split.
    + intros [Hn Hd]. constructor; [|exact Hd]. intros Hin.
      assert (E : existsb (Z.eqb t) labels = true).
      { apply existsb_exists. exists t. split; [exact Hin | apply Z.eqb_refl]. }
      congruence.
    + intros H. inversion H as [|? ? Hn Hd]; subst. split; [|exact Hd].
      destruct (existsb (Z.eqb t) labels) eqn:E; [|reflexivity].
      apply existsb_exists in E. destruct E as (t' & Hin & Et).
      apply Z.eqb_eq in Et. subst t'. contradiction.
Qed.

Lemma same_labels_true (l1 l2 : list Z) :
  same_labels l1 l2 = true <-> l1 = l2.
Proof.
  unfold same_labels. destruct (list_eq_dec Z.eq_dec l1 l2); split;
    intros H; first [assumption | reflexivity | discriminate | contradiction].
Qed.

Lemma lookup_relabel (s : Series) (labels : list Z) (t : Z) :
  In t labels -> lookup t (relabel s labels) = lookup t s.
Proof.
  induction labels as [|l labels IH]; intros H; [destruct H|].
  cbn [relabel map lookup]. destruct (Z.eqb t l) eqn:E.
  - apply Z.eqb_eq in E. subst. reflexivity.
  - apply IH. destruct H as [H|H]; [|exact H].
    apply Z.eqb_neq in E. congruence.
Qed.

Lemma relabel_own_index (s : Series) :
  NoDup (index s) -> relabel s (index s) = s.
Proof.
  induction s as [|[t v] s IH]; intros Hnd; [reflexivity|].
  cbn [index map fst] in Hnd. inversion Hnd as [|? ? Hnotin Hnd']; subst.
  unfold relabel. cbn [index map fst lookup]. rewrite Z.eqb_refl. f_equal.
  rewrite <- (IH Hnd') at 2. unfold relabel. apply map_ext_in.
  intros t' Hin. destruct (Z.eqb t' t) eqn:E; [|reflexivity].
  apply Z.eqb_eq in E. subst. contradiction.
Qed.

(** On a series with distinct labels [reindex] reads the series at the
    labels asked for. *)
Lemma reindex_unique (s : Series) (labels : list Z) :
  NoDup (index s) -> reindex s labels = Ok (relabel s labels).
Proof.
  intros Hnd. unfold reindex. destruct (same_labels (index s) labels) eqn:E.
  - apply same_labels_true in E. subst labels.
    rewrite relabel_own_index by exact Hnd. reflexivity.
  - rewrite (proj2 (is_unique_NoDup (index s)) Hnd). reflexivity.
Qed.

(** Dropping rows keeps the time stamps distinct. *)
Lemma NoDup_kept_index (keep : Z * Row -> bool) (df : DataFrame) :
  NoDup (df_index df) -> NoDup (df_index (filter keep df)).
Proof.
  unfold df_index. intros Hnd.
  induction df as [|tr df IH]; cbn [filter map] in *; [exact Hnd|].
  apply NoDup_cons_iff in Hnd. destruct Hnd as [Hfresh Hnd].
  specialize (IH Hnd). destruct (keep tr); [|exact IH].
  cbn [map]. apply NoDup_cons_iff. split; [|exact IH].
  intros Hin. apply Hfresh. apply in_map_iff in Hin.
  destruct Hin as (tr' & Et & Hk). rewrite <- Et.
  apply in_map. apply (proj1 (filter_In keep tr' df) Hk).
Qed.

Lemma NoDup_map_injective (A B : Type) (f : A -> B) (l : list A) :
  NoDup (map f l) ->
  forall x y, In x l -> In y l -> f x = f y -> x = y.
Proof.
  induction l as [|a l IH]; cbn [map]; intros H x y Hx Hy E; [destruct Hx|].
  inversion H as [|? ? Hna Hnd]; subst.
  destruct Hx as [->|Hx], Hy as [->|Hy].
  - reflexivity.
  - exfalso. apply Hna. rewrite E. apply in_map. exact Hy.
  - exfalso. apply Hna. rewrite <- E. apply in_map. exact Hx.
  - exact (IH Hnd x y Hx Hy E).
Qed.

Lemma kept_all_rows (df : DataFrame) (metric : column) :
  is_centroid metric = false ->
  filter (fun tr => negb (excluded metric (snd tr))) df = df.
Proof.
  intros H. unfold excluded. rewrite H. cbn [andb negb].
  induction df as [|tr df IH]; [reflexivity|].
  cbn [filter]. rewrite IH. reflexivity.
Qed.

(** Lines 57-90 for one metric, up to the last call: what is reindexed on
    line 90 is the smoothed series of the retained rows, a number in every
    row. *)
Lemma clean_metric_smoothed
    (savgol_filter : list float -> Z -> Z -> result (list float))
    (df : DataFrame) (metric : column) :
  savgol_contract savgol_filter ->
  (forall tr, In tr df -> isfinite (snd tr metric) = true) ->
  (1 <= retained df metric)%nat ->
  retained df metric <> 2%nat -> retained df metric <> 4%nat ->
  exists vals,
    clean_metric savgol_filter df metric
    = reindex
        (combine
           (df_index (filter (fun tr => negb (excluded metric (snd tr))) df))
           vals)
        (df_index df) /\
    length vals = retained df metric /\
    forallb isfinite vals = true.
Proof.
  intros Hsg Hfin H1 H2 H4. unfold clean_metric. cbv zeta.
  rewrite prefilter_rows. unfold retained in *.
  set (kept := filter (fun tr => negb (excluded metric (snd tr))) df) in *.
  set (series := getcol kept metric).
  assert (Hlen : length series = length kept) by apply length_map.
  assert (Hidx : index series = df_index kept).
  { unfold series, getcol, index, df_index. rewrite map_map. reflexivity. }
  assert (Hvals : forallb isfinite (values series) = true).
  { apply forallb_forall. intros x Hx. unfold series, getcol, values in Hx.
    rewrite map_map in Hx. apply in_map_iff in Hx.
    destruct Hx as (tr & <- & Htr). apply Hfin.
    apply filter_In in Htr. tauto. }
  assert (Hne : values series <> []).
  { intros E. apply (f_equal (@length float)) in E.
    unfold values in E. rewrite length_map, Hlen in E. cbn in E. lia. }
  destruct (zscore_filter_keeps_one (values series) Hvals Hne) as [Hz1 Hz2].
  pose proof (gap_fill_finite _ Hz1 Hz2) as Hg.
  assert (Lz : length (zscore_filter (values series)) = length series).
  { rewrite length_zscore_filter. apply length_map. }
  destruct (with_values_shape zscore_filter series Lz) as [Iz Vz].
  set (s1 := with_values zscore_filter series) in *.
  assert (L1 : length s1 = length series).
  { rewrite <- (length_map fst s1). fold (index s1). rewrite Iz.
    apply length_map. }
  assert (Lg : length (gap_fill (values s1)) = length s1).
  { rewrite length_gap_fill. apply length_map. }
  destruct (with_values_shape gap_fill s1 Lg) as [Ig Vg].
  set (s2 := with_values gap_fill s1) in *.
  assert (L2 : length s2 = length kept).
  { rewrite <- (length_map fst s2). fold (index s2). rewrite Ig, Iz.
    unfold index. rewrite length_map. exact Hlen. }
  destruct (smooth_finite savgol_filter s2 Hsg) as (vals & Es & Lv & Fv).
  - rewrite Vg, Vz. exact Hg.
  - lia.
  - lia.
  - lia.
  - rewrite Es. cbn [bind]. exists vals.
    rewrite Ig, Iz, Hidx.
    split; [reflexivity|]. split; [congruence | exact Fv].
Qed.

(** Lines 57-90 for one metric of a frame with distinct time stamps: the
    stored column is the smoothed series of the retained rows, looked up at
    every label of the frame. *)
Lemma clean_metric_spec
    (savgol_filter : list float -> Z -> Z -> result (list float))
    (df : DataFrame) (metric : column) :
  savgol_contract savgol_filter ->
  NoDup (df_index df) ->
  (forall tr, In tr df -> isfinite (snd tr metric) = true) ->
  (1 <= retained df metric)%nat ->
  retained df metric <> 2%nat -> retained df metric <> 4%nat ->
  exists vals,
    clean_metric savgol_filter df metric
    = Ok (relabel
            (combine
               (df_index (filter (fun tr => negb (excluded metric (snd tr)))
                                 df))
               vals)
            (df_index df)) /\
    length vals = retained df metric /\
    forallb isfinite vals = true.
Proof.
  intros Hsg Hnd Hfin H1 H2 H4.
  destruct (clean_metric_smoothed savgol_filter df metric Hsg Hfin H1 H2 H4)
    as (vals & E & Lv & Fv).
  exists vals. rewrite E.
  assert (Lk : length (df_index (filter (fun tr =>
                         negb (excluded metric (snd tr))) df)) = length vals).
  { unfold df_index. rewrite length_map. unfold retained in Lv. congruence. }
  rewrite reindex_unique.
  - split; [reflexivity|]. split; [exact Lv | exact Fv].
  - unfold index. rewrite (map_fst_combine _ _ _ _ Lk).
    apply NoDup_kept_index. exact Hnd.
Qed.

End Smoothing.

Section CleanedSeries.

Import NP Pandas Plotter.
Open Scope Z_scope.

Lemma Forall2_map_right (A B : Type) (P : A -> B -> Prop) (h : A -> B)
    (l : list A) :
  (forall x, In x l -> P x (h x)) -> Forall2 P l (map h l).
Proof.
  induction l as [|x l IH]; intros H; cbn [map]; constructor.
  - apply H. left. reflexivity.
  - apply IH. intros y Hy. apply H. right. exact Hy.
Qed.

(** One iteration of the loop.  For a frame with distinct time stamps and
    a finite column, and a Savitzky-Golay filter that meets its contract,
    when the pre-filter keeps a number of rows that is at least 1 and is not
    2 or 4, the column stored for the metric has the time index of the
    frame, row for row, holds a number in every row the pre-filter kept, and
    is missing in every row the centroid pre-filter dropped. *)
Lemma clean_metric_on_index :
  forall (savgol_filter : list float -> Z -> Z -> result (list float))
         (df : DataFrame) (metric : column),
    savgol_contract savgol_filter ->
    NoDup (df_index df) ->
    (forall tr, In tr df -> isfinite (snd tr metric) = true) ->
    (1 <= retained df metric)%nat ->
    retained df metric <> 2%nat -> retained df metric <> 4%nat ->
    exists out,
      clean_metric savgol_filter df metric = Ok out /\
      index out = df_index df /\
      Forall2 (fun tr tv =>
                 fst tv = fst tr /\
                 if excluded metric (snd tr)
                 then snd tv = NaN
                 else isfinite (snd tv) = true) df out.
Proof.
  intros sg df metric Hsg Hnd Hfin H1 H2 H4.
  destruct (clean_metric_spec sg df metric Hsg Hnd Hfin H1 H2 H4)
    as (vals & E & Lv & Fv).
  eexists. split; [exact E|]. split; [apply index_relabel|].
  unfold relabel, df_index. rewrite map_map. apply Forall2_map_right.
  intros tr Htr. cbn [fst snd]. split; [reflexivity|].
  set (kept := filter (fun tr0 => negb (excluded metric (snd tr0))) df) in *.
  assert (Lk : length (map fst kept) = length vals).
  { rewrite length_map. unfold retained in Lv. fold kept in Lv. congruence. }
  set (s := combine (map fst kept) vals).
  assert (Is : index s = map fst kept) by (apply map_fst_combine; exact Lk).
  assert (Vs : values s = vals) by (apply map_snd_combine; exact Lk).
  destruct (excluded metric (snd tr)) eqn:Ex.
  - apply lookup_not_in. rewrite Is. intros Hin.
    apply in_map_iff in Hin. destruct Hin as (tr' & Ef & Hk).
    apply filter_In in Hk. destruct Hk as [Hdf Hex].
    assert (tr' = tr).
    { apply (NoDup_map_injective _ _ fst df Hnd); assumption. }
    subst tr'. rewrite Ex in Hex. discriminate.
  - apply lookup_in_finite; [|rewrite Vs; exact Fv].
    rewrite Is. apply in_map. apply filter_In. split; [exact Htr|].
    rewrite Ex. reflexivity.
Qed.

Lemma retained_all_rows (df : DataFrame) (metric : column) :
  is_centroid metric = false -> retained df metric = length df.
Proof.
  intros H. unfold retained, excluded. rewrite H. cbn [andb negb].
  f_equal. induction df as [|tr df IH]; [reflexivity|].
  cbn [filter]. rewrite IH. reflexivity.
Qed.

Lemma retained_le_length (df : DataFrame) (metric : column) :
  (retained df metric <= length df)%nat.
Proof. unfold retained. apply filter_length_le. Qed.

(** C1 (cleaned series).  The whole loop of line 56 on a frame with
    distinct time stamps and finite columns, whose number of rows is not 2
    or 4 and whose number of rows outside the exclusion region is at least 1
    and is not 2 or 4: the four iterations complete, each stored column has
    the time index of the frame, row for row, and holds a number in every
    row the pre-filter kept; but the columns stored for [centroid_x] and
    [centroid_y] are missing in every row that lies in the exclusion region.
    Lines 60-62 drop those rows instead of masking them, so the
    interpolation of line 69 never sees them and line 90 puts [nan] at
    their labels. *)
Theorem C1_excluded_rows_left_missing :
  forall (savgol_filter : list float -> Z -> Z -> result (list float))
         (df : DataFrame),
    savgol_contract savgol_filter ->
    NoDup (df_index df) ->
    (forall tr c, In tr df -> isfinite (snd tr c) = true) ->
    length df <> 2%nat -> length df <> 4%nat ->
    (1 <= retained df centroid_x)%nat ->
    retained df centroid_x <> 2%nat -> retained df centroid_x <> 4%nat ->
    exists cols,
      cleaning_loop savgol_filter df = Ok cols /\
      map fst cols = [area; solidity; centroid_x; centroid_y] /\
      Forall (fun mc =>
                index (snd mc) = df_index df /\
                Forall2 (fun tr tv =>
                           fst tv = fst tr /\
                           if excluded (fst mc) (snd tr)
                           then snd tv = NaN
                           else isfinite (snd tv) = true) df (snd mc))
             cols.
Proof.
  intros sg df Hsg Hnd Hfin L2 L4 R1 R2 R4.
  pose proof (retained_le_length df centroid_x) as Hle.
  assert (Hcol : forall metric,
             (1 <= retained df metric)%nat ->
             retained df metric <> 2%nat -> retained df metric <> 4%nat ->
             exists col,
               clean_metric sg df metric = Ok col /\
               index col = df_index df /\
               Forall2 (fun tr tv =>
                          fst tv = fst tr /\
                          if excluded metric (snd tr)
                          then snd tv = NaN
                          else isfinite (snd tv) = true) df col).
  { intros metric. apply clean_metric_on_index; [exact Hsg | exact Hnd|].
    intros tr Htr. apply Hfin. exact Htr. }
  destruct (Hcol area) as (c1 & E1 & I1);
    try (rewrite retained_all_rows by reflexivity; lia).
  destruct (Hcol solidity) as (c2 & E2 & I2);
    try (rewrite retained_all_rows by reflexivity; lia).
  destruct (Hcol centroid_x R1 R2 R4) as (c3 & E3 & I3).
  destruct (Hcol centroid_y R1 R2 R4) as (c4 & E4 & I4).
  exists [(area, c1); (solidity, c2); (centroid_x, c3); (centroid_y, c4)].
  unfold cleaning_loop, metrics. cbn [app clean_all].
  rewrite E1, E2, E3, E4. cbn [bind map fst].
  split; [reflexivity|]. split; [reflexivity|].
  repeat constructor; cbn [fst snd]; tauto.
Qed.

Lemma row_at_finite (cx cy : Z) (c : column) : isfinite (row_at cx cy c) = true.
Proof. destruct c; reflexivity. Qed.

Lemma Rltb_IZR (a b : Z) : Rltb (IZR a) (IZR b) = (a <? b).
Proof.
  destruct (a <? b) eqn:Hab.
  - apply Rltb_true, IZR_lt, Z.ltb_lt. exact Hab.
  - apply Rltb_false, IZR_le, Z.ltb_ge. exact Hab.
Qed.

Lemma excluded_row_at (cx cy : Z) :
  excluded centroid_x (row_at cx cy) = (cx <? 650) && (cy <? 650).
Proof.
  unfold excluded, row_at, of_Z. cbn [is_centroid andb ltb].
  rewrite !Rltb_IZR. reflexivity.
Qed.

Lemma blob_row_finite (cx cy : Z) (c : column) :
  isfinite (PlotterData.blob_row cx cy c) = true.
Proof. destruct c; reflexivity. Qed.

Lemma excluded_blob_row (cx cy : Z) :
  excluded centroid_x (PlotterData.blob_row cx cy)
  = (cx <? 650) && (cy <? 650).
Proof.
  unfold excluded, PlotterData.blob_row, of_Z. cbn [is_centroid andb ltb].
  rewrite !Rltb_IZR. reflexivity.
Qed.

(** Five rows as the tracker writes them, the first and the third with a
    centroid inside the exclusion region: the loop completes and the
    [centroid_x] column is missing at the first time stamp. *)
Lemma C1_witness :
  exists cols col,
    cleaning_loop savgol_interp PlotterData.df_run = Ok cols /\
    In (centroid_x, col) cols /\
    In (Tracker.start_time, NaN) col.
Proof.
  destruct (C1_excluded_rows_left_missing savgol_interp PlotterData.df_run
              savgol_interp_contract)
    as (cols & E & Hm & Hc).
  - repeat constructor; cbn; intuition discriminate.
  - intros tr c [<-|[<-|[<-|[<-|[<-|[]]]]]]; apply blob_row_finite.
  - cbn. lia.
  - cbn. lia.
  - unfold retained, PlotterData.df_run. cbn [filter snd].
    rewrite !excluded_blob_row. cbn. lia.
  - unfold retained, PlotterData.df_run. cbn [filter snd].
    rewrite !excluded_blob_row. cbn. lia.
  - unfold retained, PlotterData.df_run. cbn [filter snd].
    rewrite !excluded_blob_row. cbn. lia.
  - destruct cols as [|[m1 c1] [|[m2 c2] [|[m3 c3] cols]]];
      try discriminate Hm.
    injection Hm as _ _ Hm3 _. cbn [fst] in Hm3. subst m3.
    exists ((m1, c1) :: (m2, c2) :: (centroid_x, c3) :: cols), c3.
    split; [exact E|]. split; [right; right; left; reflexivity|].
    inversion Hc as [|? ? _ Hc1]; subst.
    inversion Hc1 as [|? ? _ Hc2]; subst.
    inversion Hc2 as [|? ? [_ H3] _]; subst. cbn [fst snd] in H3.
    unfold PlotterData.df_run in H3.
    inversion H3 as [|tr tv ? ? [Ht Hv] _]; subst.
    cbn [fst snd] in Ht, Hv. rewrite excluded_blob_row in Hv.
    change ((100 <? 650) && (100 <? 650)) with true in Hv. cbv iota in Hv.
    left. destruct tv as [t v]. cbn [fst snd] in Ht, Hv. subst.
    reflexivity.
Defined.

(** Line 90 on a frame with a repeated time stamp.  When a time stamp
    occurs twice among the rows outside the exclusion region, and a row lies
    inside it, the iterations for [area] and [solidity] succeed, their
    series carrying the index of the frame itself, and the iteration for
    [centroid_x] ends the loop in the [ValueError] of [reindex]. *)
Theorem cleaning_loop_repeated_stamp_raises :
  forall (savgol_filter : list float -> Z -> Z -> result (list float))
         (df : DataFrame),
    savgol_contract savgol_filter ->
    (forall tr c, In tr df -> isfinite (snd tr c) = true) ->
    length df <> 2%nat -> length df <> 4%nat ->
    (1 <= retained df centroid_x)%nat ->
    retained df centroid_x <> 2%nat -> retained df centroid_x <> 4%nat ->
    (retained df centroid_x < length df)%nat ->
    ~ NoDup (df_index
               (filter (fun tr => negb (excluded centroid_x (snd tr))) df)) ->
    (exists c1 c2,
        clean_metric savgol_filter df area = Ok c1 /\
        clean_metric savgol_filter df solidity = Ok c2) /\
    clean_metric savgol_filter df centroid_x = Raise ValueError /\
    cleaning_loop savgol_filter df = Raise ValueError.
Proof.
  intros sg df Hsg Hfin L2 L4 R1 R2 R4 Hex Hdup.
  assert (Hall : forall metric,
             is_centroid metric = false ->
             exists col, clean_metric sg df metric = Ok col).
  { intros metric Hm.
    destruct (clean_metric_smoothed sg df metric Hsg) as (vals & E & Lv & _);
      try (rewrite retained_all_rows by exact Hm; lia).
    { intros tr Htr. apply Hfin. exact Htr. }
    rewrite (kept_all_rows df metric Hm) in E.
    rewrite (retained_all_rows df metric Hm) in Lv.
    eexists. rewrite E. unfold reindex, index.
    rewrite map_fst_combine
      by (unfold df_index; rewrite length_map; congruence).
    rewrite (proj2 (same_labels_true _ _) eq_refl). reflexivity. }
  destruct (Hall area eq_refl) as (c1 & E1).
  destruct (Hall solidity eq_refl) as (c2 & E2).
  assert (E3 : clean_metric sg df centroid_x = Raise ValueError).
  { destruct (clean_metric_smoothed sg df centroid_x Hsg)
      as (vals & E & Lv & _); try assumption.
    { intros tr Htr. apply Hfin. exact Htr. }
    rewrite E. unfold reindex, index.
    set (kept := filter (fun tr => negb (excluded centroid_x (snd tr))) df)
      in *.
    assert (Lk : length (df_index kept) = length vals).
    { unfold df_index. rewrite length_map. unfold retained in Lv.
      fold kept in Lv. congruence. }
    rewrite (map_fst_combine _ _ _ _ Lk).
    destruct (same_labels (df_index kept) (df_index df)) eqn:Es.
    - apply same_labels_true in Es. apply (f_equal (@length Z)) in Es.
      unfold df_index in Es. rewrite !length_map in Es.
      unfold retained in Hex. fold kept in Hex. lia.
    - destruct (is_unique (df_index kept)) eqn:Eu; [|reflexivity].
      apply is_unique_NoDup in Eu. contradiction. }
  split; [exists c1, c2; split; assumption|]. split; [exact E3|].
  unfold cleaning_loop, metrics. cbn [app clean_all].
  rewrite E1, E2, E3. reflexivity.
Qed.

Lemma cleaning_loop_repeated_stamp_raises_witness :
  cleaning_loop savgol_interp PlotterData.df_repeat = Raise ValueError.
Proof.
  assert (Hk : filter (fun tr => negb (excluded centroid_x (snd tr)))
                      PlotterData.df_repeat
               = tl PlotterData.df_repeat).
  { unfold PlotterData.df_repeat. cbn [filter snd tl].
    rewrite !excluded_blob_row. reflexivity. }
  apply (cleaning_loop_repeated_stamp_raises savgol_interp
           PlotterData.df_repeat savgol_interp_contract).
  - intros tr c [<-|[<-|[<-|[<-|[<-|[<-|[]]]]]]]; apply blob_row_finite.
  - cbn. lia.
  - cbn. lia.
  - unfold retained. rewrite Hk. cbn. lia.
  - unfold retained. rewrite Hk. cbn. lia.
  - unfold retained. rewrite Hk. cbn. lia.
  - unfold retained. rewrite Hk. cbn. lia.
  - rewrite Hk. intros Hnd. apply is_unique_NoDup in Hnd.
    vm_compute in Hnd. discriminate Hnd.
Defined.

End CleanedSeries.

(** * Further properties *)

(** ** OrganoidTracker.py: selection of the contour and the record *)

Section ContourSelection.

Import Tracker.
Open Scope R_scope.

Lemma max_by_split (A : Type) (key : A -> R) (items : list A) :
  forall best l1 l2,
    Forall (fun c => key c < key best) l1 ->
    Forall (fun c => key c <= key best) l2 ->
    exists l1' l2',
      l1 ++ best :: l2 ++ items = l1' ++ max_by key best items :: l2' /\
      Forall (fun c => key c < key (max_by key best items)) l1' /\
      Forall (fun c => key c <= key (max_by key best items)) l2'.
Proof.
  induction items as [|c items IH]; intros best l1 l2 H1 H2.
  - exists l1, l2. rewrite app_nil_r. auto.
  - cbn [max_by]. destruct (NP.Rltb (key best) (key c)) eqn:E.
    + apply Rltb_true in E.
      destruct (IH c (l1 ++ best :: l2) []) as (l1' & l2' & Eq & F1 & F2).
      * apply Forall_app. split.
        -- eapply Forall_impl; [|exact H1]. cbn. intros x Hx. lra.
        -- constructor; [exact E|].
           eapply Forall_impl; [|exact H2]. cbn. intros x Hx. lra.
      * constructor.
      * exists l1', l2'. split; [|auto]. rewrite <- Eq.
        rewrite <- app_assoc. reflexivity.
    + apply Rltb_false in E.
      destruct (IH best l1 (l2 ++ [c])) as (l1' & l2' & Eq & F1 & F2).
      * exact H1.
      * apply Forall_app. split; [exact H2|]. constructor; [exact E|constructor].
      * exists l1', l2'. split; [|auto]. rewrite <- Eq.
        rewrite <- app_assoc. reflexivity.
Qed.

(** Line 51: [max] returns the first item of largest key: every item
    before it has a strictly smaller key, every item after it a key that is
    not larger. *)
Theorem max_by_first_maximum :
  forall (A : Type) (key : A -> R) (best : A) (items : list A),
  exists l1 l2,
    best :: items = l1 ++ max_by key best items :: l2 /\
    Forall (fun c => key c < key (max_by key best items)) l1 /\
    Forall (fun c => key c <= key (max_by key best items)) l2.
Proof.
  intros A key best items.
  destruct (max_by_split A key items best [] [] (Forall_nil _) (Forall_nil _))
    as (l1 & l2 & E & F1 & F2).
  exists l1, l2. cbn [app] in E. auto.
Qed.

(** Lines 63 and 69 for a bounding box with positive sides: the aspect
    ratio is positive, and the eccentricity is a number in [0, 1) that is
    zero exactly for a square box. *)
Theorem eccentricity_below_one :
  forall (ts : Z) (a p : R) (M : Moments) (w h : Z) (hull : R),
    (0 < w)%Z -> (0 < h)%Z ->
    exists rec e,
      shape_metrics ts a p M w h hull = Ok rec /\
      eccentricity rec = NP.Fin e /\
      0 <= e < 1 /\ (e = 0 <-> w = h) /\
      0 < aspect_ratio rec.
Proof.
  intros ts a p M w h hull Hw Hh.
  rewrite (shape_metrics_ok ts a p M w h hull) by lia.
  assert (Hmax : (0 < Z.max w h)%Z) by lia.
  assert (Hmin : (0 < Z.min w h)%Z) by lia.
  assert (Hle : (Z.min w h <= Z.max w h)%Z) by lia.
  assert (Hmz : Z.max w h <> 0%Z) by lia.
  apply IZR_lt in Hmax, Hmin, Hw, Hh. apply IZR_le in Hle.
  set (lo := IZR (Z.min w h)) in *. set (hi := IZR (Z.max w h)) in *.
  set (q := lo / hi).
  assert (Hq : 0 < q <= 1).
  { unfold q. split.
    - apply Rdiv_lt_0_compat; assumption.
    - apply Rmult_le_reg_r with hi; [exact Hmax|].
      unfold Rdiv. rewrite Rmult_assoc, Rinv_l by lra. lra. }
  assert (Hrad : 0 <= 1 - q ^ 2 < 1) by nra.
  eexists _, (sqrt (1 - q ^ 2)). split; [reflexivity|].
  cbn [eccentricity aspect_ratio].
  rewrite (proj2 (Z.eqb_neq (Z.max w h) 0) Hmz).
  split.
  { unfold NP.sqrt. fold lo hi q.
    rewrite (proj2 (Rltb_false _ _)) by lra. reflexivity. }
  split.
  { split; [apply sqrt_pos|].
    apply Rlt_le_trans with (sqrt 1);
      [apply sqrt_lt_1_alt; lra | rewrite sqrt_1; lra]. }
  split.
  { split.
    - intros E. apply sqrt_eq_0 in E; [|lra].
      assert (Hq1 : q = 1) by nra.
      assert (Hlh : lo = hi).
      { unfold q in Hq1. apply (f_equal (fun x => x * hi)) in Hq1.
        unfold Rdiv in Hq1. rewrite Rmult_assoc, Rinv_l in Hq1 by lra. lra. }
      unfold lo, hi in Hlh. apply eq_IZR in Hlh. lia.
    - intros ->. unfold q, lo, hi. rewrite Z.min_id, Z.max_id.
      replace (1 - (IZR h / IZR h) ^ 2) with 0; [apply sqrt_0|].
      field. lra. }
  apply Rdiv_lt_0_compat; assumption.
Qed.

Lemma eccentricity_below_one_witness :
  exists rec e,
    shape_metrics 0 3000 200 {| m00 := 3000; m10 := 2700000; m01 := 2850000 |}
                  70 60 3100 = Ok rec /\
    eccentricity rec = NP.Fin e /\ 0 <= e < 1.
Proof.
  destruct (eccentricity_below_one 0 3000 200
              {| m00 := 3000; m10 := 2700000; m01 := 2850000 |} 70 60 3100)
    as (rec & e & E & He & Hb & _).
  - reflexivity.
  - reflexivity.
  - exists rec, e. auto.
Defined.

End ContourSelection.

(** ** OrganoidTracker.py: what a run records *)

Section RunTrace.

Import Tracker TrackerRun.
Open Scope Z_scope.

Variables Frame Contour : Type.
Variable find_contours : Frame -> list Contour.
Variable contourArea : Contour -> R.
Variable arcLength : Contour -> R.
Variable moments : Contour -> Moments.
Variable boundingRect : Contour -> Z * Z * Z * Z.
Variable convexHull : Contour -> Contour.
Variable drawContours : Frame -> Contour -> Frame.
Variable circle : Frame -> Z -> Z -> Frame.
Variable putText : Frame -> Z -> R -> Z -> Z -> Frame.

Local Abbreviation main_loop :=
  (main_loop Frame Contour find_contours contourArea arcLength moments
     boundingRect convexHull drawContours circle putText).
Local Abbreviation main :=
  (main Frame Contour find_contours contourArea arcLength moments
     boundingRect convexHull drawContours circle putText).
Local Abbreviation detected := (detected Frame Contour find_contours contourArea).
Local Abbreviation detectedb :=
  (detectedb Frame Contour find_contours contourArea).
Local Abbreviation detection_stamps :=
  (detection_stamps Frame Contour find_contours contourArea).
Local Abbreviation contour_data := (contour_data Contour).
Local Abbreviation all_contours := (all_contours Contour).

Lemma detectedb_spec (frame : Frame) :
  detectedb frame = true <-> detected frame.
Proof.
  unfold TrackerRun.detectedb.
  destruct (find_contours frame) as [|c0 rest] eqn:E.
  - split; [discriminate|]. intros H. exfalso.
    exact (not_detected_nil Frame Contour find_contours contourArea frame E H).
  - rewrite (detected_max_by Frame Contour find_contours contourArea
               frame c0 rest E).
    rewrite negb_true_iff. apply Rltb_false.
Qed.

(** The loop appends, for each frame that passes the test and in the order
    of the frames, one record and one stored contour with the time stamp of
    the frame; it writes one overlay frame per frame, the frame itself when
    the test fails. *)
Lemma main_loop_trace (period : Z) (cap : list Frame) :
  (forall f c, In f cap -> In c (find_contours f) ->
               snd (boundingRect c) <> 0) ->
  forall (frame_idx : Z) st out,
  exists st' written,
    main_loop period cap frame_idx st out = Ok (st', out ++ written) /\
    map timestamp (contour_data st')
    = map timestamp (contour_data st) ++ detection_stamps period cap frame_idx /\
    map snd (all_contours st')
    = map snd (all_contours st) ++ detection_stamps period cap frame_idx /\
    Forall2 (fun f o => detectedb f = false -> o = f) cap written.
Proof.
  induction cap as [|frame cap IH]; intros Hh idx st out.
  - exists st, []. cbn [Tracker.main_loop TrackerRun.detection_stamps].
    rewrite !app_nil_r. repeat split; constructor.
  - cbn [Tracker.main_loop TrackerRun.detection_stamps].
    unfold frame_skip. rewrite Z.mod_1_r. cbn [Z.eqb negb].
    assert (Hh' : forall f c, In f cap -> In c (find_contours f) ->
                              snd (boundingRect c) <> 0).
    { intros f c Hf. apply Hh. right. exact Hf. }
    destruct (process_frame_cases Frame Contour find_contours contourArea
                arcLength moments boundingRect convexHull drawContours circle
                putText st frame (start_time + idx * period)
                (fun c => Hh frame c (or_introl eq_refl)))
      as [[Hnd E] | [Hd (cnt & rec & frame' & _ & _ & Hrec & E)]];
      rewrite E; cbn [bind fst snd].
    + assert (Eb : detectedb frame = false).
      { destruct (detectedb frame) eqn:Eb; [|reflexivity].
        apply detectedb_spec in Eb. contradiction. }
      rewrite Eb.
      destruct (IH Hh' (idx + 1) st (out ++ [frame]))
        as (st' & written & E' & H1 & H2 & H3).
      exists st', (frame :: written). rewrite E', <- app_assoc.
      repeat split; auto.
    + rewrite (proj2 (detectedb_spec frame) Hd).
      apply shape_metrics_timestamp in Hrec.
      match goal with
      | |- context [Tracker.main_loop _ _ _ _ _ _ _ _ _ _ _ _ _ _ ?s _] =>
          set (st1 := s)
      end.
      destruct (IH Hh' (idx + 1) st1 (out ++ [frame']))
        as (st' & written & E' & H1 & H2 & H3).
      exists st', (frame' :: written). rewrite E', <- app_assoc.
      subst st1. cbn [Tracker.contour_data Tracker.all_contours] in H1, H2.
      rewrite map_app in H1, H2. cbn [map snd] in H1, H2.
      rewrite Hrec in H1. rewrite <- app_assoc in H1, H2.
      repeat split; auto.
      constructor; [|exact H3].
      intros Eb. rewrite (proj2 (detectedb_spec frame) Hd) in Eb.
      discriminate.
Qed.

(** Lines 55 and 71-82 over a whole run: the stored contours and the
    records stay in step, the k-th stored contour carrying the time stamp of
    the k-th record. *)
Theorem contours_and_records_in_step :
  forall (frame_count fps_period : Z) (video : list Frame),
    (forall f c, In f video -> In c (find_contours f) ->
                 snd (boundingRect c) <> 0) ->
    exists st out,
      main frame_count fps_period video = Ok (st, out) /\
      map snd (all_contours st) = map timestamp (contour_data st) /\
      length (all_contours st) = length (contour_data st).
Proof.
  intros frame_count fps_period video Hh. unfold Tracker.main.
  destruct (main_loop_trace (frame_period frame_count fps_period) video Hh
              0 (init_state Contour) [])
    as (st & written & E & H1 & H2 & _).
  exists st, written. split; [exact E|].
  cbn [init_state Tracker.contour_data Tracker.all_contours map app] in H1, H2.
  assert (Em : map snd (all_contours st) = map timestamp (contour_data st))
    by congruence.
  split; [exact Em|].
  rewrite <- (length_map snd (all_contours st)), Em. apply length_map.
Qed.

(** Lines 106-123: the records of a run are those of the frames that pass
    the test of lines 48-53, in the order of the frames, each stamped with
    the index of its frame; every frame gives one overlay frame, and a frame
    that fails the test is written as it was read. *)
Theorem records_are_the_detected_frames :
  forall (frame_count fps_period : Z) (video : list Frame),
    (forall f c, In f video -> In c (find_contours f) ->
                 snd (boundingRect c) <> 0) ->
    exists st out,
      main frame_count fps_period video = Ok (st, out) /\
      map timestamp (contour_data st)
      = detection_stamps (frame_period frame_count fps_period) video 0 /\
      length (contour_data st) = length (filter detectedb video) /\
      Forall2 (fun f o => detectedb f = false -> o = f) video out.
Proof.
  intros frame_count fps_period video Hh. unfold Tracker.main.
  set (period := frame_period frame_count fps_period).
  destruct (main_loop_trace period video Hh 0 (init_state Contour) [])
    as (st & written & E & H1 & _ & H3).
  exists st, written. split; [exact E|].
  cbn [init_state Tracker.contour_data map app] in H1.
  split; [exact H1|]. split; [|exact H3].
  rewrite <- (length_map timestamp (contour_data st)), H1.
  clear. generalize 0. induction video as [|f video IH]; intros idx.
  - reflexivity.
  - cbn [TrackerRun.detection_stamps filter].
    destruct (detectedb f); cbn [length]; rewrite IH; reflexivity.
Qed.

(** C9 (time stamps).  For a positive frame count below twice the total
    duration in microseconds, and bounding boxes of non-zero height, the run
    over any number of frames returns with: a frame period that is the total
    duration divided by the frame count, rounded to the nearest microsecond;
    the records those of the frames that pass the test of lines 48-53, in
    the order of the frames, each stamped [start_time + i * period] with the
    index [i] of its own frame; the time stamps strictly increasing along
    the list; at most one record per frame; one overlay frame per frame. *)
Theorem C9_timestamps_strictly_increasing :
  forall (frame_count fps_period : Z) (video : list Frame),
    0 < frame_count < 2 * total_duration ->
    (forall f c, In f video -> In c (find_contours f) ->
                 snd (boundingRect c) <> 0) ->
    exists st out,
      main frame_count fps_period video = Ok (st, out) /\
      2 * Z.abs (frame_period frame_count fps_period * frame_count
                 - total_duration) <= frame_count /\
      map timestamp (contour_data st)
      = detection_stamps (frame_period frame_count fps_period) video 0 /\
      StronglySorted Z.lt (map timestamp (contour_data st)) /\
      (length (contour_data st) <= length video)%nat /\
      length out = length video.
Proof.
  intros frame_count fps_period video [Hc1 Hc2] Hh. unfold Tracker.main.
  rewrite (frame_period_eq frame_count fps_period) by lia.
  set (period := divide_and_round total_duration frame_count).
  assert (Hp : 0 < period) by (apply divide_and_round_pos; lia).
  destruct (main_loop_invariant Frame Contour find_contours contourArea
              arcLength moments boundingRect convexHull drawContours circle
              putText period video Hp Hh 0 (init_state Contour) []
              (Z.le_refl 0))
    as (st & out & E & _ & Hsorted & Hlen & Hout);
    [constructor | constructor |].
  destruct (main_loop_trace period video Hh 0 (init_state Contour) [])
    as (st' & written & E' & Hstamps & _).
  rewrite E in E'. injection E' as <- _.
  exists st, out. split; [exact E|].
  split; [apply divide_and_round_near; exact Hc1|].
  split; [exact Hstamps|]. split; [exact Hsorted|].
  cbn [init_state Tracker.contour_data length Nat.add] in Hlen, Hout.
  split; [exact Hlen | exact Hout].
Qed.

End RunTrace.

Section RunExamples.

Import Tracker TrackerRun.
Open Scope Z_scope.

Lemma toy_video_heights (video : list ToyFrame) :
  (forall f c, In f video -> In c (toy_contours f) -> c = speck \/ c = blob) ->
  forall f c, In f video -> In c (toy_contours f) -> snd (toy_rect c) <> 0.
Proof.
  intros H f c Hf Hc. destruct (H f c Hf Hc) as [-> | ->]; cbn; discriminate.
Qed.

Lemma video3_contours :
  forall f c, In f video3 -> In c (toy_contours f) -> c = speck \/ c = blob.
Proof.
  intros f c Hf Hc. unfold video3 in Hf.
  destruct Hf as [<-|[<-|[<-|[]]]]; cbn in Hc; intuition.
Qed.

Lemma video4_contours :
  forall f c, In f video4 -> In c (toy_contours f) -> c = speck \/ c = blob.
Proof.
  intros f c Hf Hc. unfold video4 in Hf.
  destruct Hf as [<-|[<-|[<-|[<-|[]]]]]; cbn in Hc; intuition.
Qed.

(** Three frames, reported as three: the first and the third give a
    record, stamped with the frame indices 0 and 2. *)
Lemma C9_witness :
  exists st out,
    toy_main 3 0 video3 = Ok (st, out) /\
    map timestamp (contour_data ToyContour st)
    = [start_time + 0 * frame_period 3 0; start_time + 2 * frame_period 3 0] /\
    StronglySorted Z.lt (map timestamp (contour_data ToyContour st)).
Proof.
  destruct (C9_timestamps_strictly_increasing ToyFrame ToyContour
              toy_contours toy_area toy_perimeter toy_moments toy_rect
              toy_hull (fun f _ => toy_draw f) (fun f _ _ => toy_draw f)
              (fun f _ _ _ _ => toy_draw f) 3 0 video3)
    as (st & out & E & _ & Hst & Hs & _).
  - unfold total_duration. lia.
  - exact (toy_video_heights video3 video3_contours).
  - exists st, out. split; [exact E|]. split; [|exact Hs].
    rewrite Hst. unfold video3.
    cbn [detection_stamps]. unfold detectedb.
    cbn [toy_contours frame_of max_by].
    assert (Hb : toy_area blob = 3000%R) by reflexivity.
    assert (Hk : toy_area speck = 12%R) by reflexivity.
    unfold min_area. rewrite ?Hb, ?Hk. rtest. cbn [negb].
    rewrite ?Hb, ?Hk. rtest. cbn [negb]. reflexivity.
Defined.

Lemma contours_and_records_in_step_witness :
  exists st out,
    toy_main 3 0 video3 = Ok (st, out) /\
    map snd (all_contours ToyContour st)
    = map timestamp (contour_data ToyContour st).
Proof.
  destruct (contours_and_records_in_step ToyFrame ToyContour
              toy_contours toy_area toy_perimeter toy_moments toy_rect
              toy_hull (fun f _ => toy_draw f) (fun f _ _ => toy_draw f)
              (fun f _ _ _ _ => toy_draw f) 3 0 video3)
    as (st & out & E & H & _).
  - exact (toy_video_heights video3 video3_contours).
  - exists st, out. auto.
Defined.

Lemma records_are_the_detected_frames_witness :
  exists st out,
    toy_main 3 0 video3 = Ok (st, out) /\
    length (contour_data ToyContour st)
    = length (filter (detectedb ToyFrame ToyContour toy_contours toy_area)
                     video3).
Proof.
  destruct (records_are_the_detected_frames ToyFrame ToyContour
              toy_contours toy_area toy_perimeter toy_moments toy_rect
              toy_hull (fun f _ => toy_draw f) (fun f _ _ => toy_draw f)
              (fun f _ _ _ _ => toy_draw f) 3 0 video3)
    as (st & out & E & _ & H & _).
  - exact (toy_video_heights video3 video3_contours).
  - exists st, out. auto.
Defined.

Lemma divide_and_round_neg_divisor (a b : Z) :
  0 < a -> b < 0 -> divide_and_round a b <= 0.
Proof.
  intros Ha Hb. unfold divide_and_round.
  pose proof (Z.div_mod a b ltac:(lia)) as Hdm.
  pose proof (Z.mod_neg_bound a b Hb) as Hr.
  set (q := a / b) in *. set (r := a mod b) in *.
  assert (Hq : q <= -1) by nia.
  destruct ((if 0 <? b then b <? 2 * r else 2 * r <? b)
            || (2 * r =? b) && (q mod 2 =? 1)); lia.
Qed.

(** Lines 99-101: the frame period is positive exactly when the reported
    frame count is at least 0 and below twice the total duration in
    microseconds; for any other count the time stamps of line 118 do not
    advance with the frame index. *)
Theorem frame_period_positive_iff :
  forall frame_count fps_period : Z,
    0 < frame_period frame_count fps_period <->
    0 <= frame_count < 2 * total_duration.
Proof.
  intros N fps. unfold frame_period.
  change (negb (total_duration =? 0)) with true. cbv iota.
  assert (HD : 0 < total_duration) by reflexivity.
  destruct (N =? 0) eqn:E0.
  - apply Z.eqb_eq in E0. subst N.
    change (divide_and_round total_duration 1) with total_duration. lia.
  - apply Z.eqb_neq in E0.
    destruct (Z_lt_le_dec N 0) as [Hneg|Hpos].
    + pose proof (divide_and_round_neg_divisor total_duration N HD Hneg). lia.
    + assert (HN : 0 < N) by lia.
      pose proof (divide_and_round_near total_duration N HN) as Hnear.
      destruct (Z_lt_le_dec N (2 * total_duration)) as [Hlt|Hge].
      * pose proof (divide_and_round_pos total_duration N (conj HN Hlt)). lia.
      * split; [|lia]. intros Hp. exfalso.
        destruct (Z.eq_dec N (2 * total_duration)) as [->|Hne].
        -- revert Hp. vm_compute. discriminate.
        -- nia.
Qed.

End RunExamples.

(** ** OrganoidPlotter.py: the window for every series length *)

Section WindowTable.

Import NP Pandas Plotter.
Open Scope Z_scope.

(** Lines 74-76, for every series length: the windows for 0 to 10 points
    are 1, 1, 3, 3, 5, 5, 5, 7, 7, 9, 9, and 10 for any longer series. *)
Theorem choose_window_table :
  forall k : nat,
    choose_window (Z.of_nat k) = nth k [1; 1; 3; 3; 5; 5; 5; 7; 7; 9; 9] 10.
Proof.
  intros k. do 11 (destruct k as [|k]; [reflexivity|]).
  rewrite choose_window_long by lia.
  cbn [nth]. destruct k; reflexivity.
Qed.

(** Lines 74-78: the window fits the series for every length except 0, 2
    and 4, and the polynomial order is always at least 0 and below the
    window. *)
Theorem choose_window_fits_iff :
  forall k : nat,
    (choose_window (Z.of_nat k) <= Z.of_nat k <->
     k <> 0%nat /\ k <> 2%nat /\ k <> 4%nat) /\
    0 <= choose_polyorder (choose_window (Z.of_nat k))
      < choose_window (Z.of_nat k).
Proof.
  intros k.
  assert (Hsmall : (k <= 10)%nat \/ (11 <= k)%nat) by lia.
  destruct Hsmall as [Hs|Hl].
  - do 11 (destruct k as [|k];
           [match goal with
            | |- context [choose_window ?n] =>
                let v := eval vm_compute in (choose_window n) in
                change (choose_window n) with v
            end;
            match goal with
            | |- context [choose_polyorder ?w] =>
                let v := eval vm_compute in (choose_polyorder w) in
                change (choose_polyorder w) with v
            end;
            lia|]).
    lia.
  - rewrite choose_window_long by lia. unfold choose_polyorder, poly_order.
    split; [|lia]. split; [intros _; lia | intros _; lia].
Qed.

Lemma length_with_values (f : list float -> list float) (s : Series) :
  length (f (values s)) = length s -> length (with_values f s) = length s.
Proof.
  intros H. destruct (with_values_shape f s H) as [Hi _].
  rewrite <- (length_map fst (with_values f s)). fold (index (with_values f s)).
  rewrite Hi. apply length_map.
Qed.

Lemma smooth_window_too_long
    (savgol_filter : list float -> Z -> Z -> result (list float))
    (s : Series) :
  savgol_contract savgol_filter ->
  length s = 0%nat \/ length s = 2%nat \/ length s = 4%nat ->
  smooth savgol_filter s = Raise ValueError.
Proof.
  intros Hsg Hlen. unfold smooth. cbv zeta.
  destruct (Hsg (values s) (choose_window (Z.of_nat (length s)))
              (choose_polyorder (choose_window (Z.of_nat (length s)))))
    as [Hraise _].
  rewrite Hraise; [reflexivity|].
  unfold values. rewrite length_map.
  destruct Hlen as [-> | [-> | ->]]; cbn; lia.
Qed.

(** Lines 57-90: when the pre-filter keeps no row, two rows or four rows
    (an empty frame and a frame whose centroids all lie in the exclusion
    region are such cases), the window of lines 74-76 is longer than the
    series and the iteration ends in the [ValueError] of [savgol_filter]. *)
Theorem clean_metric_raises_on_short_series :
  forall (savgol_filter : list float -> Z -> Z -> result (list float))
         (df : DataFrame) (metric : column),
    savgol_contract savgol_filter ->
    retained df metric = 0%nat \/ retained df metric = 2%nat \/
    retained df metric = 4%nat ->
    clean_metric savgol_filter df metric = Raise ValueError.
Proof.
  intros sg df metric Hsg Hn. unfold clean_metric. cbv zeta.
  rewrite prefilter_rows. unfold retained in Hn.
  set (kept := filter (fun tr => negb (excluded metric (snd tr))) df) in *.
  set (series := getcol kept metric).
  assert (L0 : length series = length kept) by apply length_map.
  assert (L1 : length (with_values zscore_filter series) = length series).
  { apply length_with_values. rewrite length_zscore_filter. apply length_map. }
  assert (L2 : length (with_values gap_fill (with_values zscore_filter series))
               = length series).
  { rewrite length_with_values; [exact L1|].
    rewrite length_gap_fill. apply length_map. }
  rewrite smooth_window_too_long; [reflexivity | exact Hsg |].
  rewrite L2, L0. exact Hn.
Qed.

Lemma clean_metric_raises_on_short_series_witness :
  clean_metric savgol_interp df_two_rows area = Raise ValueError.
Proof.
  apply clean_metric_raises_on_short_series.
  - exact savgol_interp_contract.
  - right. left. reflexivity.
Defined.

End WindowTable.

(** ** OrganoidPlotter.py: what the z-score test can reject *)

Section RejectionLimits.

Import NP Pandas Plotter.
Open Scope R_scope.

Lemma Rsum_map_dev (m : R) (l : list R) :
  Rsum (map (fun r => m - r) l) = INR (length l) * m - Rsum l.
Proof.
  induction l as [|x l IH]; [cbn; lra|].
  cbn [map Rsum length]. rewrite S_INR, IH. lra.
Qed.

Lemma Rsum_dev_zero (l : list R) :
  l <> [] -> Rsum (map (fun r => Rmean l - r) l) = 0.
Proof.
  intros Hne. pose proof (INR_length_pos _ l Hne) as Hn.
  rewrite Rsum_map_dev. unfold Rmean. field. lra.
Qed.

(** The square of a sum is at most the number of terms times the sum of
    the squares. *)
Lemma square_of_sum (f : R -> R) (l : list R) :
  Rsum (map f l) * Rsum (map f l)
  <= INR (length l) * Rsum (map (fun x => f x * f x) l).
Proof.
  induction l as [|x l IH]; [cbn; lra|].
  destruct l as [|y l'].
  - cbn. lra.
  - set (l := y :: l') in *. cbn [map Rsum length]. rewrite S_INR.
    assert (Hk : 1 <= INR (length l)).
    { unfold l. cbn [length]. rewrite S_INR. pose proof (pos_INR (length l')).
      lra. }
    set (k := INR (length l)) in *. set (S := Rsum (map f l)) in *.
    set (Q := Rsum (map (fun x0 => f x0 * f x0) l)) in *.
    assert (Hsq : 0 <= (k * f x - S) * (k * f x - S)).
    { pose proof (Rle_0_sqr (k * f x - S)) as H. exact H. }
    assert (Hmid : 0 <= k * (k * (f x * f x) + Q - 2 * (f x * S))) by nra.
    assert (Hmid' : 0 <= k * (f x * f x) + Q - 2 * (f x * S)).
    { apply Rmult_le_reg_l with k; [lra|]. lra. }
    nra.
Qed.

(** No squared deviation exceeds [n - 1] times the variance, [n] being the
    number of values. *)
Lemma deviation_bound (l : list R) (r : R) :
  In r l ->
  (r - Rmean l) * (r - Rmean l) <= (INR (length l) - 1) * Rvar l.
Proof.
  intros Hin.
  assert (Hne : l <> []) by (intros ->; destruct Hin).
  pose proof (INR_length_pos _ l Hne) as Hn.
  pose proof (Rsum_dev_zero l Hne) as Hz.
  assert (Hv : Rsum (map (fun x => (Rmean l - x) * (Rmean l - x)) l)
               = INR (length l) * Rvar l).
  { unfold Rvar. field. lra. }
  set (m := Rmean l) in *. set (v := Rvar l) in *.
  apply in_split in Hin. destruct Hin as (l1 & l2 & El).
  assert (Hlen : INR (length l) = INR (length l1) + INR (length l2) + 1).
  { rewrite El, length_app. cbn [length].
    rewrite Nat.add_succ_r, S_INR, plus_INR. reflexivity. }
  rewrite Hlen in Hv, Hn |- *. rewrite El in Hz, Hv.
  rewrite map_app, Rsum_app in Hz, Hv. cbn [map Rsum] in Hz, Hv.
  pose proof (square_of_sum (fun x => m - x) (l1 ++ l2)) as Hcs.
  rewrite !map_app, !Rsum_app, length_app, plus_INR in Hcs. cbv beta in Hcs.
  set (D1 := Rsum (map (fun x => m - x) l1)) in *.
  set (D2 := Rsum (map (fun x => m - x) l2)) in *.
  set (Q1 := Rsum (map (fun x => (m - x) * (m - x)) l1)) in *.
  set (Q2 := Rsum (map (fun x => (m - x) * (m - x)) l2)) in *.
  set (k1 := INR (length l1)) in *. set (k2 := INR (length l2)) in *.
  assert (Hd : D1 + D2 = r - m) by lra.
  rewrite Hd in Hcs.
  set (K := k1 + k2) in *. set (d2 := (r - m) * (r - m)) in *.
  assert (Hq : Q1 + Q2 = (K + 1) * v - d2).
  { replace ((m - r) * (m - r)) with d2 in Hv by (unfold d2; ring).
    lra. }
  rewrite Hq in Hcs.
  replace (K * ((K + 1) * v - d2)) with (K * ((K + 1) * v) - K * d2) in Hcs
    by ring.
  apply Rmult_le_reg_l with (K + 1); [lra|].
  replace (K + 1 - 1) with K by ring.
  replace ((K + 1) * d2) with (K * d2 + d2) by ring.
  replace ((K + 1) * (K * v)) with (K * ((K + 1) * v)) by ring.
  lra.
Qed.

(** Lines 65-66 with [z_thresh = 3]: a series with at most eight numbers
    present comes out of the rejection unchanged, whatever the numbers are:
    the standardized deviation of a value among [n] cannot exceed the square
    root of [n - 1], which for eight values stays clear of the threshold. *)
Theorem zscore_filter_keeps_short_series :
  forall xs : list float,
    forallb fin_or_nan xs = true ->
    (count xs <= 8)%nat ->
    zscore_filter xs = xs.
Proof.
  intros xs Hf Hc. rewrite (zscore_filter_spec xs Hf).
  transitivity (map (fun x : float => x) xs); [|apply map_id].
  apply map_ext_in. intros x Hx.
  destruct x as [r| | |]; try reflexivity. cbn [zmask].
  rewrite (proj2 (Rltb_false _ _)); [reflexivity|].
  apply in_reals in Hx.
  assert (Hne : reals xs <> []) by (intros E; rewrite E in Hx; exact Hx).
  pose proof (deviation_bound (reals xs) r Hx) as Hb.
  pose proof (Rvar_nonneg (reals xs) Hne) as Hv.
  rewrite (count_reals xs Hf) in Hc. apply le_INR in Hc.
  assert (H8 : INR 8 = 8) by (cbn; lra). rewrite H8 in Hc.
  nra.
Qed.

Lemma zscore_filter_keeps_short_series_witness :
  zscore_filter [Fin 1; Fin 1; NaN; Fin 1000000; Fin 2]
  = [Fin 1; Fin 1; NaN; Fin 1000000; Fin 2].
Proof.
  apply zscore_filter_keeps_short_series.
  - reflexivity.
  - cbn. lia.
Defined.



End RejectionLimits.

(** ** OrganoidPlotter.py: gap filling on whole series *)

Section GapFillWhole.

Import NP Pandas Plotter.
Open Scope R_scope.

Lemma all_missing (xs : list float) :
  forallb fin_or_nan xs = true -> existsb isfinite xs = false ->
  xs = repeat NaN (length xs).
Proof.
  induction xs as [|x xs IH]; cbn [forallb existsb]; intros H E.
  - reflexivity.
  - apply andb_prop in H. destruct H as [Hx Hxs].
    apply orb_false_elim in E. destruct E as [Ex Exs].
    destruct x; try discriminate. cbn [length repeat].
    rewrite <- (IH Hxs Exs). reflexivity.
Qed.

Lemma bfill_all_missing (k : nat) : bfill (repeat NaN k) = repeat NaN k.
Proof.
  induction k as [|k IH]; [reflexivity|].
  cbn [repeat bfill isnan]. rewrite IH. destruct k; reflexivity.
Qed.

Lemma ffill_all_missing (k : nat) :
  ffill_from NaN (repeat NaN k) = repeat NaN k.
Proof.
  induction k as [|k IH]; [reflexivity|].
  cbn [repeat ffill_from isnan]. rewrite IH. reflexivity.
Qed.

Lemma gap_fill_all_missing (k : nat) : gap_fill (repeat NaN k) = repeat NaN k.
Proof.
  unfold gap_fill, ffill.
  rewrite <- (app_nil_r (repeat NaN k)) at 1.
  rewrite interpolate_leading. cbn [interpolate]. rewrite app_nil_r.
  rewrite bfill_all_missing. apply ffill_all_missing.
Qed.

(** After leading missing values and a first number, the result is that
    number repeated, then the forward interpolation. *)
Lemma gap_fill_shape (k : nat) (a : R) (t : list float) :
  forallb fin_or_nan t = true ->
  gap_fill (repeat NaN k ++ Fin a :: t)
  = repeat (Fin a) k ++ Fin a :: interp_after (Fin a) 1 t.
Proof.
  intros Ht. pose proof (interp_after_finite t Ht a 1) as Hi.
  pose proof (isfinite_valid _ Hi) as Hv.
  rewrite gap_fill_leading, gap_fill_head by reflexivity.
  rewrite <- (app_nil_r (interp_after (Fin a) 1 t)) at 1.
  rewrite bfill_valid_app by exact Hv. cbn [bfill]. rewrite app_nil_r.
  rewrite ffill_from_valid by exact Hv. reflexivity.
Qed.

(** Lines 69-70 on a series without infinities: when a number is present
    every value of the result is a number; when none is, the series comes
    back as it was, all missing. *)
Theorem gap_fill_all_or_nothing :
  forall xs : list float,
    forallb fin_or_nan xs = true ->
    length (gap_fill xs) = length xs /\
    if existsb isfinite xs
    then forallb isfinite (gap_fill xs) = true
    else gap_fill xs = xs /\ forallb isnan xs = true.
Proof.
  intros xs Hf. split; [apply length_gap_fill|].
  destruct (existsb isfinite xs) eqn:E.
  - apply gap_fill_finite; assumption.
  - rewrite (all_missing xs Hf E). split; [apply gap_fill_all_missing|].
    apply forallb_forall. intros x Hx. apply repeat_spec in Hx. subst.
    reflexivity.
Qed.

Lemma gap_fill_all_or_nothing_witness :
  forallb isfinite (gap_fill [NaN; Fin 3; NaN; NaN; Fin 6; NaN]) = true.
Proof.
  destruct (gap_fill_all_or_nothing [NaN; Fin 3; NaN; NaN; Fin 6; NaN])
    as [_ H].
  - reflexivity.
  - exact H.
Defined.

(** Lines 69-70 applied twice give what they give once. *)
Theorem gap_fill_idempotent :
  forall xs : list float,
    forallb fin_or_nan xs = true ->
    gap_fill (gap_fill xs) = gap_fill xs.
Proof.
  intros xs Hf. destruct (existsb isfinite xs) eqn:E.
  - apply gap_fill_valid. apply isfinite_valid.
    apply gap_fill_finite; assumption.
  - rewrite (all_missing xs Hf E). rewrite !gap_fill_all_missing.
    reflexivity.
Qed.

Lemma gap_fill_idempotent_witness :
  gap_fill (gap_fill [NaN; Fin 3; NaN; NaN; Fin 6; NaN])
  = gap_fill [NaN; Fin 3; NaN; NaN; Fin 6; NaN].
Proof.
  apply gap_fill_idempotent. reflexivity.
Defined.

Lemma next_valid_in (xs : list float) :
  forall k y, next_valid xs = Some (k, y) -> In y xs.
Proof.
  induction xs as [|x xs IH]; cbn [next_valid]; intros k y E; [discriminate|].
  destruct (isnan x).
  - destruct (next_valid xs) as [[k' y']|] eqn:En; [|discriminate].
    injection E as _ <-. right. exact (IH k' y' eq_refl).
  - injection E as _ <-. left. reflexivity.
Qed.

Lemma interp_after_range (lo hi : R) (t : list float) :
  forallb fin_or_nan t = true ->
  (forall r, In (Fin r) t -> lo <= r <= hi) ->
  forall a d r,
    lo <= a <= hi ->
    In (Fin r) (interp_after (Fin a) d t) -> lo <= r <= hi.
Proof.
  induction t as [|x t IH]; intros Hf Hr a d r Ha Hin; [destruct Hin|].
  cbn [forallb] in Hf. apply andb_prop in Hf. destruct Hf as [Hx Ht].
  assert (Hr' : forall r0, In (Fin r0) t -> lo <= r0 <= hi).
  { intros r0 H0. apply Hr. right. exact H0. }
  cbn [interp_after] in Hin.
  destruct x as [b| | |]; try discriminate; cbn [isnan] in Hin.
  - assert (Hb : lo <= b <= hi) by (apply Hr; left; reflexivity).
    destruct Hin as [E|Hin]; [injection E as <-; exact Hb|].
    exact (IH Ht Hr' b 1%nat r Hb Hin).
  - destruct Hin as [E|Hin]; [|exact (IH Ht Hr' a (S d) r Ha Hin)].
    destruct (next_valid t) as [[k y]|] eqn:En.
    + destruct (next_valid_fin t Ht k y En) as [b ->].
      assert (Hb : lo <= b <= hi).
      { apply Hr'. exact (next_valid_in t k (Fin b) En). }
      unfold sub, of_nat in E. cbn [neg add] in E.
      rewrite div_fin in E by (apply not_0_INR; lia).
      cbn [mul add] in E. injection E as <-.
      assert (HN : 0 < INR (d + k + 1)) by (apply lt_0_INR; lia).
      assert (HD : 0 <= INR d) by apply pos_INR.
      assert (HDN : INR d <= INR (d + k + 1)) by (apply le_INR; lia).
      set (N := INR (d + k + 1)) in *. set (D := INR d) in *.
      set (tau := D / N).
      assert (Htau : 0 <= tau <= 1).
      { unfold tau. split.
        - apply Rmult_le_pos; [exact HD|]. left.
          apply Rinv_0_lt_compat. exact HN.
        - apply Rmult_le_reg_r with N; [exact HN|].
          unfold Rdiv. rewrite Rmult_assoc, Rinv_l by lra. lra. }
      replace ((b + - a) / N * D + a) with (a + (b - a) * tau)
        by (unfold tau; field; lra).
      nra.
    + injection E as <-. exact Ha.
Qed.

(** Lines 69-70 never leave the range of the data: when every number of
    the series lies between [lo] and [hi], so does every number of the
    filled series. *)
Theorem gap_fill_within_range :
  forall (xs : list float) (lo hi : R),
    forallb fin_or_nan xs = true ->
    (forall r, In (Fin r) xs -> lo <= r <= hi) ->
    forall r, In (Fin r) (gap_fill xs) -> lo <= r <= hi.
Proof.
  intros xs lo hi Hf Hr r Hin. destruct (existsb isfinite xs) eqn:E.
  - destruct (leading_nans xs Hf E) as (k & a & t & ->).
    assert (Ht : forallb fin_or_nan t = true).
    { rewrite forallb_app in Hf. apply andb_prop in Hf. destruct Hf as [_ H].
      cbn [forallb] in H. apply andb_prop in H. tauto. }
    assert (Ha : lo <= a <= hi).
    { apply Hr. apply in_or_app. right. left. reflexivity. }
    rewrite (gap_fill_shape k a t Ht) in Hin.
    apply in_app_or in Hin. destruct Hin as [Hin|[Hin|Hin]].
    + apply repeat_spec in Hin. injection Hin as ->. exact Ha.
    + injection Hin as <-. exact Ha.
    + apply (interp_after_range lo hi t Ht) with (a := a) (d := 1%nat);
        [|exact Ha | exact Hin].
      intros r0 H0. apply Hr. apply in_or_app. right. right. exact H0.
  - rewrite (all_missing xs Hf E), gap_fill_all_missing in Hin.
    apply repeat_spec in Hin. discriminate.
Qed.

Lemma gap_fill_within_range_witness :
  forallb fin_or_nan [NaN; Fin 3; NaN; NaN; Fin 6; NaN] = true /\
  (forall r, In (Fin r) (gap_fill [NaN; Fin 3; NaN; NaN; Fin 6; NaN]) ->
             3 <= r <= 6).
Proof.
  split; [reflexivity|].
  apply (gap_fill_within_range [NaN; Fin 3; NaN; NaN; Fin 6; NaN] 3 6).
  - reflexivity.
  - intros r [E|[E|[E|[E|[E|[E|[]]]]]]]; try discriminate;
      injection E as <-; lra.
Defined.

End GapFillWhole.

(** ** OrganoidPlotter.py: rolling mean and reindexing *)

Section RollingAndReindex.

Import NP Pandas Plotter.
Open Scope R_scope.

Lemma Rsum_between (lo hi : R) (l : list R) :
  (forall r, In r l -> lo <= r <= hi) ->
  INR (length l) * lo <= Rsum l <= INR (length l) * hi.
Proof.
  induction l as [|x l IH]; intros H.
  - cbn. lra.
  - cbn [length Rsum]. rewrite S_INR.
    pose proof (H x (or_introl eq_refl)).
    pose proof (IH (fun r Hr => H r (or_intror Hr))). lra.
Qed.

Lemma Rmean_between (lo hi : R) (l : list R) :
  l <> [] -> (forall r, In r l -> lo <= r <= hi) -> lo <= Rmean l <= hi.
Proof.
  intros Hne H. pose proof (INR_length_pos _ l Hne) as Hn.
  pose proof (Rsum_between lo hi l H) as [H1 H2]. unfold Rmean. split.
  - apply Rmult_le_reg_r with (INR (length l)); [exact Hn|].
    unfold Rdiv. rewrite Rmult_assoc, Rinv_l by lra. lra.
  - apply Rmult_le_reg_r with (INR (length l)); [exact Hn|].
    unfold Rdiv. rewrite Rmult_assoc, Rinv_l by lra. lra.
Qed.

Lemma In_firstn (A : Type) (x : A) (l : list A) :
  forall k, In x (firstn k l) -> In x l.
Proof.
  induction l as [|y l IH]; intros [|k] H; cbn in H; try contradiction.
  destruct H as [->|H]; [left; reflexivity | right; exact (IH k H)].
Qed.

Lemma In_skipn (A : Type) (x : A) (l : list A) :
  forall k, In x (skipn k l) -> In x l.
Proof.
  induction l as [|y l IH]; intros [|k] H; cbn in H; try contradiction;
    [exact H|].
  right. exact (IH k H).
Qed.

(** Line 83: the centred rolling mean of a series of numbers keeps its
    length and stays within the range of the series; in particular a
    constant series is returned as it is. *)
Theorem rolling_mean_within_range :
  forall (window : nat) (xs : list float) (lo hi : R),
    (1 <= window)%nat ->
    forallb isfinite xs = true ->
    (forall r, In (Fin r) xs -> lo <= r <= hi) ->
    length (rolling_mean window xs) = length xs /\
    Forall (fun y => exists r, y = Fin r /\ lo <= r <= hi)
           (rolling_mean window xs).
Proof.
  intros w xs lo hi Hw Hfin Hr. split; [apply length_rolling_mean|].
  unfold rolling_mean. apply Forall_forall. intros y Hy.
  apply in_map_iff in Hy. destruct Hy as (i & <- & Hi).
  apply in_seq in Hi. cbn [Nat.add] in Hi.
  set (win := firstn _ (skipn _ xs)).
  assert (Hwf : forallb isfinite win = true).
  { apply forallb_firstn, forallb_skipn. exact Hfin. }
  assert (Hne : win <> []).
  { intros E. apply (f_equal (@length float)) in E. unfold win in E.
    rewrite length_firstn, length_skipn in E. cbn [length] in E.
    assert (Hoff : ((w - 1) / 2 <= w - 1)%nat).
    { apply Nat.Div0.div_le_upper_bound. lia. }
    set (offset := ((w - 1) / 2)%nat) in *. lia. }
  assert (Hrn : reals win <> []).
  { intros E. apply (f_equal (@length R)) in E.
    rewrite (reals_of_finite win Hwf) in E. destruct win; [contradiction|].
    discriminate. }
  rewrite (mean_reals win (isfinite_fin_or_nan win Hwf) Hrn).
  eexists. split; [reflexivity|].
  apply Rmean_between; [exact Hrn|].
  intros r Hin. apply Hr. apply reals_in in Hin.
  eapply In_skipn, In_firstn. exact Hin.
Qed.

Lemma rolling_mean_within_range_witness :
  Forall (fun y => exists r, y = Fin r /\ 10 <= r <= 10)
         (rolling_mean 50 (repeat (Fin 10) 7)).
Proof.
  apply (rolling_mean_within_range 50 (repeat (Fin 10) 7) 10 10).
  - lia.
  - reflexivity.
  - intros r Hin. apply repeat_spec in Hin. injection Hin as ->. lra.
Defined.

(** Line 90: on a series with distinct labels, reindexing onto its own
    labels gives the series back, and reindexing onto distinct labels that
    include its own loses nothing: reindexing the result onto the labels of
    the series gives the series again, and neither call raises. *)
Theorem reindex_round_trip :
  forall (s : Series) (labels : list Z),
    NoDup (index s) ->
    NoDup labels ->
    incl (index s) labels ->
    reindex s (index s) = Ok s /\
    (r <- reindex s labels ;; reindex r (index s)) = Ok s.
Proof.
  intros s labels Hnd Hl Hincl. split.
  - rewrite reindex_unique by exact Hnd.
    rewrite relabel_own_index by exact Hnd. reflexivity.
  - rewrite reindex_unique by exact Hnd. cbn [bind].
    rewrite reindex_unique by (rewrite index_relabel; exact Hl).
    f_equal. rewrite <- (relabel_own_index s Hnd) at 3.
    unfold relabel at 1 3. apply map_ext_in. intros t Hin. f_equal.
    apply lookup_relabel. apply Hincl. exact Hin.
Qed.

Lemma reindex_round_trip_witness :
  (r <- reindex [(1%Z, Fin 900)] [0%Z; 1%Z] ;;
   reindex r (index [(1%Z, Fin 900)]))
  = Ok [(1%Z, Fin 900)].
Proof.
  apply (reindex_round_trip [(1%Z, Fin 900)] [0%Z; 1%Z]).
  - repeat constructor. intros [].
  - repeat constructor; cbn; intuition discriminate.
  - intros t [<-|[]]. right. left. reflexivity.
Defined.

End RollingAndReindex.

(** ** From the tracker to the plotter *)

Section TrackerToPlotter.

Import Tracker TrackerRun MetricsFile.
Open Scope Z_scope.

Variables Frame Contour : Type.
Variable find_contours : Frame -> list Contour.
Variable contourArea : Contour -> R.
Variable arcLength : Contour -> R.
Variable moments : Contour -> Moments.
Variable boundingRect : Contour -> Z * Z * Z * Z.
Variable convexHull : Contour -> Contour.
Variable drawContours : Frame -> Contour -> Frame.
Variable circle : Frame -> Z -> Z -> Frame.
Variable putText : Frame -> Z -> R -> Z -> Z -> Frame.

Local Abbreviation main :=
  (main Frame Contour find_contours contourArea arcLength moments
     boundingRect convexHull drawContours circle putText).
Local Abbreviation detectedb :=
  (detectedb Frame Contour find_contours contourArea).
Local Abbreviation contour_data := (contour_data Contour).

Lemma StronglySorted_lt_NoDup (l : list Z) :
  StronglySorted Z.lt l -> NoDup l.
Proof.
  induction 1 as [|x l Hs IH Hx]; constructor; [|exact IH].
  intros Hin. rewrite Forall_forall in Hx. specialize (Hx x Hin). lia.
Qed.

Lemma df_index_to_frame (recs : list MetricRecord) :
  Plotter.df_index (to_frame recs) = map timestamp recs.
Proof. unfold Plotter.df_index, to_frame. rewrite map_map. reflexivity. Qed.


End TrackerToPlotter.

Section TrackerToPlotterExample.

Import Tracker TrackerRun MetricsFile.
Open Scope Z_scope.

Lemma video4_detections :
  filter (detectedb ToyFrame ToyContour toy_contours toy_area) video4
  = [frame_of [blob]; frame_of [speck; blob]; frame_of [blob]].
Proof.
  assert (Hb : toy_area blob = 3000%R) by reflexivity.
  assert (Hs : toy_area speck = 12%R) by reflexivity.
  unfold video4. cbn [filter]. unfold detectedb.
  cbn [toy_contours frame_of max_by]. unfold min_area.
  rewrite ?Hb, ?Hs. rtest. cbn [negb]. rewrite ?Hb, ?Hs. rtest.
  reflexivity.
Qed.


End TrackerToPlotterExample.

(** ** The centroid path of the figure *)

Section FigureUnits.

Import NP Pandas Figure.
Open Scope R_scope.

Lemma values_map_values (f : float -> float) (s : Series) :
  values (map_values f s) = map f (values s).
Proof. unfold values, map_values. rewrite !map_map. reflexivity. Qed.

End FigureUnits.

Section CentroidPath.

Import NP Pandas Figure.

Lemma nth_error_stride_from {A : Type} (step : nat) (l : list A) :
  (1 <= step)%nat ->
  forall k j, nth_error (stride_from step k l) j = nth_error l (k + j * step).
Proof.
  intros Hs. induction l as [|x l IH]; intros k j.
  - cbn [stride_from]. destruct j, (k + _)%nat; reflexivity.
  - cbn [stride_from]. destruct k as [|k].
    + destruct j as [|j]; [reflexivity|].
      cbn [nth_error]. rewrite IH.
      replace (0 + S j * step)%nat with (S (step - 1 + j * step)) by lia.
      reflexivity.
    + rewrite IH. reflexivity.
Qed.

Lemma nth_error_combine {A B : Type} (l1 : list A) (l2 : list B) (j : nat) :
  nth_error (combine l1 l2) j =
  match nth_error l1 j, nth_error l2 j with
  | Some a, Some b => Some (a, b)
  | _, _ => None
  end.
Proof.
  revert l2 j. induction l1 as [|a l1 IH]; intros l2 j.
  - destruct j; reflexivity.
  - destruct l2 as [|b l2].
    + destruct j; cbn; [reflexivity|]. destruct (nth_error l1 j); reflexivity.
    + destruct j; cbn; [reflexivity|]. apply IH.
Qed.

Lemma nth_error_segments {A : Type} (points : list A) (j : nat) :
  nth_error (segments points) j =
  match nth_error points j, nth_error points (S j) with
  | Some a, Some b => Some (a, b)
  | _, _ => None
  end.
Proof.
  unfold segments. revert j. induction points as [|a points IH]; intros j.
  - destruct j; reflexivity.
  - destruct points as [|b points].
    + destruct j; cbn; [reflexivity|]. destruct j; reflexivity.
    + destruct j as [|j]; [reflexivity|].
      change (removelast (a :: b :: points)) with (a :: removelast (b :: points)).
      cbn [tl combine nth_error]. rewrite IH. reflexivity.
Qed.

Lemma nth_error_nth_default {A : Type} (l : list A) (i : nat) (d : A) :
  (i < length l)%nat -> nth_error l i = Some (nth i l d).
Proof. intros H. apply nth_error_nth'. exact H. Qed.

Lemma nth_error_beyond {A : Type} (l : list A) (i : nat) :
  (length l <= i)%nat -> nth_error l i = None.
Proof. intros H. apply nth_error_None. exact H. Qed.

Lemma nth_error_sampled (s : Series) (j : nat) :
  nth_error (centroid_sampled (centroid_mm s)) j =
  option_map (fun x => mul x (Fin PIXEL_TO_MM)) (nth_error (values s) (11 * j)).
Proof.
  unfold centroid_sampled, every_nth, centroid_mm, scale.
  rewrite nth_error_stride_from by lia. rewrite values_map_values.
  rewrite nth_error_map. f_equal. f_equal. lia.
Qed.

(** The centroid path of lines 150-157 joins every eleventh row to the next
    eleventh row.  For centroid columns of the same length [n], segment [j]
    exists exactly when row [11 * (j + 1)] does, it runs from row [11 * j]
    to row [11 * (j + 1)], both in millimetres, and the path has
    [(n + 10) / 11 - 1] segments (none for fewer than twelve rows). *)
Theorem centroid_path_joins_every_eleventh_row :
  forall (cx cy : Series) (j : nat),
    length cx = length cy ->
    let mm := fun x => mul x (Fin PIXEL_TO_MM) in
    let point := fun i => (mm (nth i (values cx) NaN),
                           mm (nth i (values cy) NaN)) in
    nth_error (centroid_segments cx cy) j =
      (if (11 * (j + 1) <? length cx)%nat
       then Some (point (11 * j)%nat, point (11 * (j + 1))%nat)
       else None) /\
    length (centroid_segments cx cy) = ((length cx + 10) / 11 - 1)%nat.
Proof.
  intros cx cy j Hlen mm point.
  assert (Lx : length (values cx) = length cx) by apply length_map.
  assert (Ly : length (values cy) = length cx)
    by (unfold values; rewrite length_map; symmetry; exact Hlen).
  assert (Hseg : forall j,
             nth_error (centroid_segments cx cy) j =
             if (11 * (j + 1) <? length cx)%nat
             then Some (point (11 * j)%nat, point (11 * (j + 1))%nat)
             else None).
  { clear j. intros j. unfold centroid_segments, centroid_points.
    rewrite nth_error_segments, !nth_error_combine, !nth_error_sampled.
    replace (11 * S j)%nat with (11 * (j + 1))%nat by lia.
    destruct (Nat.ltb_spec (11 * (j + 1)) (length cx)) as [Hj|Hj].
    - rewrite (nth_error_nth_default (values cx) (11 * j) NaN) by lia.
      rewrite (nth_error_nth_default (values cy) (11 * j) NaN) by lia.
      rewrite (nth_error_nth_default (values cx) (11 * (j + 1)) NaN) by lia.
      rewrite (nth_error_nth_default (values cy) (11 * (j + 1)) NaN) by lia.
      reflexivity.
    - rewrite (nth_error_beyond (values cx) (11 * (j + 1))) by lia.
      cbn [option_map].
      destruct (option_map _ (nth_error (values cx) (11 * j)));
        [destruct (option_map _ (nth_error (values cy) (11 * j)))|];
        reflexivity. }
  split; [apply Hseg|].
  set (segs := centroid_segments cx cy) in *.
  assert (Hup : (length cx <= 11 * (length segs + 1))%nat).
  { pose proof (Hseg (length segs)) as H.
    rewrite (nth_error_beyond segs (length segs)) in H by lia.
    destruct (Nat.ltb_spec (11 * (length segs + 1)) (length cx));
      [discriminate | assumption]. }
  assert (Hlow : (length segs = 0 \/ 11 * length segs < length cx)%nat).
  { destruct (length segs) as [|m] eqn:E; [left; reflexivity|right].
    pose proof (Hseg m) as H.
    destruct (Nat.ltb_spec (11 * (m + 1)) (length cx)) as [Hm|Hm]; [lia|].
    apply nth_error_None in H. fold segs in H. lia. }
  pose proof (Nat.div_mod_eq (length cx + 10) 11) as Hdiv.
  pose proof (Nat.mod_upper_bound (length cx + 10) 11) as Hmod.
  set (q := ((length cx + 10) / 11)%nat) in *.
  set (r := ((length cx + 10) mod 11)%nat) in *.
  lia.
Qed.

Lemma centroid_path_joins_every_eleventh_row_witness :
  length PlotterData.twelve_rows = length PlotterData.twelve_rows /\
  length (centroid_segments PlotterData.twelve_rows PlotterData.twelve_rows) = 1%nat.
Proof.
  split; [reflexivity|].
  exact (proj2 (centroid_path_joins_every_eleventh_row
                  PlotterData.twelve_rows PlotterData.twelve_rows 0 eq_refl)).
Defined.

End CentroidPath.

(** ** The capture script *)

Section CaptureRuns.

Import Capture.
Open Scope Z_scope.

Lemma loop_grabbed (n : nat) :
  forall rig : Rig,
    dac_value rig = 0 ->
    loop (repeat Grabbed n) rig =
    ({| i := i rig + Z.of_nat n;
        dac_value := 0;
        images := images rig ++ map (fun m => i rig + Z.of_nat m) (seq 0 n);
        slept := slept rig + 5 * Z.of_nat n
                 + 3600 * (Z.max 0 (i rig + Z.of_nat n - 5)
                           - Z.max 0 (i rig - 5)) |}, true).
Proof.
  induction n as [|n IH]; intros rig Hd.
  - cbn [repeat loop seq map]. destruct rig as [i0 d0 im0 s0].
    cbn [i dac_value images slept] in *. subst d0. rewrite app_nil_r.
    f_equal. f_equal; lia.
  - cbn [repeat loop vimbagrab]. cbn [i dac_value images slept].
    rewrite IH by reflexivity. cbn [i dac_value images slept].
    f_equal. f_equal.
    + lia.
    + rewrite <- app_assoc. f_equal. cbn [seq map app]. f_equal.
      * f_equal. lia.
      * rewrite <- seq_shift, map_map. apply map_ext. intros m. lia.
    + destruct (Z.ltb_spec 5 (i rig + 1)); lia.
Qed.

(** While the camera delivers its frames, the script numbers the images
    [0, 1, 2, ...] without a gap or a repeat, leaves the light off after
    each of them, and after [n] images has slept 5 seconds per image plus
    one hour per image from the sixth on: the first six images are 5
    seconds apart, the later ones an hour and 5 seconds. *)
Theorem capture_schedule :
  forall n : nat,
    loop (repeat Grabbed n) power_on =
    ({| i := Z.of_nat n;
        dac_value := 0;
        images := map Z.of_nat (seq 0 n);
        slept := 5 * Z.of_nat n + 3600 * Z.max 0 (Z.of_nat n - 5) |}, true).
Proof.
  intros n. rewrite loop_grabbed by reflexivity.
  cbn [power_on i dac_value images slept app]. f_equal. f_equal; lia.
Qed.

Lemma loop_stops (grabs : list grab) (n : nat) :
  forall rig : Rig,
    loop (repeat Grabbed n ++ TimedOut :: grabs) rig =
    ({| i := i rig + Z.of_nat n;
        dac_value := 65000;
        images := images rig ++ map (fun m => i rig + Z.of_nat m) (seq 0 n);
        slept := slept rig + 5 * Z.of_nat n
                 + 3600 * (Z.max 0 (i rig + Z.of_nat n - 5)
                           - Z.max 0 (i rig - 5)) |}, false).
Proof.
  induction n as [|n IH]; intros rig.
  - cbn [repeat app loop vimbagrab seq map]. rewrite app_nil_r.
    f_equal. f_equal; lia.
  - cbn [repeat app loop vimbagrab]. cbn [i dac_value images slept].
    rewrite IH. cbn [i dac_value images slept].
    f_equal. f_equal.
    + lia.
    + rewrite <- app_assoc. f_equal. cbn [seq map app]. f_equal.
      * f_equal. lia.
      * rewrite <- seq_shift, map_map. apply map_ext. intros m. lia.
    + destruct (Z.ltb_spec 5 (i rig + 1)); lia.
Qed.

(** When [get_frame] raises after [n] images, the script stops with the
    light left on: the DAC keeps the value 65000 that line 42 gave it, the
    [n] images written are those numbered below [n], and whatever the
    camera would have delivered afterwards is not reached. *)
Theorem capture_timeout_leaves_light_on :
  forall (n : nat) (grabs : list grab),
    exists rig,
      loop (repeat Grabbed n ++ TimedOut :: grabs) power_on = (rig, false) /\
      dac_value rig = 65000 /\
      images rig = map Z.of_nat (seq 0 n) /\
      i rig = Z.of_nat n.
Proof.
  intros n grabs. rewrite loop_stops. eexists. split; [reflexivity|].
  cbn [power_on i dac_value images slept app]. repeat split.
Qed.

End CaptureRuns.
